(** * Freeciv excerpt: chat line of the GTK client, specenum tables,
      tex AI build glue and the Mongol nation ruleset.

    The first part embeds [client/gui-gtk-2.0/chatline.c] as state-passing
    functions over a record holding the globals of the file and the part of
    the toolkit state the handlers read or write.  The remaining parts embed
    the declarative files as syntax trees together with the small evaluators
    needed to state what the files define. *)

From Stdlib Require Import ZArith NArith Floats Ascii String DecimalString List
  Sorted Lia.
From stdpp Require Import base option list gmap strings pretty.

#[local] Set Warnings "-register-all".

Local Open Scope string_scope.
Local Open Scope list_scope.

(** C strings are kept as the list of their characters before the NUL. *)
Abbreviation cstring := (list ascii).

(** The character written as backslash-n in C. *)
Definition newline : ascii := "010"%char.

(** Pointers are addresses; [NULL] is address zero. *)
Definition NULL : N := 0%N.

(** ** The genlist container *)

(** [utility/genlist.c] is not among the sources and the spec only speaks
    of a "history list" whose length is capped.  A genlist is kept as the
    list of its user-data pointers, front to back, and the four operations
    the chat line calls are given the meaning of their names and call
    sites. *)
Module genlist.

(** Modelled from the spec: [genlist_size] of the absent genlist.c, the
    number of links of the history list. *)
Definition genlist_size (pgenlist : list N) : nat := length pgenlist.

(** Modelled from the spec: [genlist_get] of the absent genlist.c, the
    pointer stored at a position, where index -1 is the last link and any
    position outside the list reads [NULL]. *)
Definition genlist_get (pgenlist : list N) (idx : Z) : N :=
  if (idx =? -1)%Z then List.last pgenlist NULL
  else if (idx <? 0)%Z then NULL
  else List.nth (Z.to_nat idx) pgenlist NULL.

(** Modelled from the spec: [genlist_unlink] of the absent genlist.c,
    which takes out the first link carrying the given pointer and does
    nothing when there is none. *)
Fixpoint genlist_unlink (pgenlist : list N) (punlink : N) : list N :=
  match pgenlist with
  | [] => []
  | data :: rest =>
      if (data =? punlink)%N then rest
      else data :: genlist_unlink rest punlink
  end.

(** Modelled from the spec: [genlist_prepend] of the absent genlist.c,
    a new link at the front. *)
Definition genlist_prepend (pgenlist : list N) (data : N) : list N :=
  data :: pgenlist.

End genlist.
Export genlist.

(** ** Toolkit state *)

(** A text mark: its character offset and its gravity. *)
Record text_mark := TextMark {
  mark_offset : nat;
  mark_left_gravity : bool
}.

(** A GtkTextBuffer: its characters and its marks, by mark address. *)
Record text_buffer := TextBuffer {
  buf_text : cstring;
  buf_marks : gmap N text_mark
}.

(** A GtkAdjustment, with the three properties the chat line reads. *)
Record adjustment := Adjustment {
  adj_value : float;
  adj_upper : float;
  adj_page_size : float
}.

Inductive widget_class :=
| GtkScrolledWindow (vadjustment : adjustment)
| GtkTextView
| GtkOtherWidget.

Record widget := Widget {
  w_class : widget_class;
  w_parent : N
}.

(** Calls that leave the modelled state: they are recorded, newest first. *)
Inductive event :=
| send_chat (message : cstring)
| gtk_text_view_scroll_to_mark (view mark : N)
| gtk_text_view_scroll_to_iter (view : N) (iter : nat)
| append_network_statusbar (text : cstring) (force : bool)
| g_critical.

(** Broken-down local time, as [localtime] fills it. *)
Record tm := Tm {
  tm_hour : nat;
  tm_min : nat;
  tm_sec : nat
}.

(** The globals of chatline.c ([history_list], [history_pos]), the globals
    of the client it reads ([message_buffer], [main_message_area],
    [start_message_area], [show_chat_message_time]), the text of the chat
    entry the return handler is connected to, the strings on the C heap, the
    widget tree and the recorded calls. *)
Record client := Client {
  history_list : list N;
  history_pos : Z;
  heap : gmap N cstring;
  inputline : cstring;
  message_buffer : option text_buffer;
  main_message_area : N;
  start_message_area : N;
  show_chat_message_time : bool;
  widgets : gmap N widget;
  trace : list event
}.

Definition set_history_list (l : list N) (s : client) : client :=
  Client l (history_pos s) (heap s) (inputline s) (message_buffer s)
         (main_message_area s) (start_message_area s)
         (show_chat_message_time s) (widgets s) (trace s).

Definition set_history_pos (pos : Z) (s : client) : client :=
  Client (history_list s) pos (heap s) (inputline s) (message_buffer s)
         (main_message_area s) (start_message_area s)
         (show_chat_message_time s) (widgets s) (trace s).

Definition set_heap (h : gmap N cstring) (s : client) : client :=
  Client (history_list s) (history_pos s) h (inputline s) (message_buffer s)
         (main_message_area s) (start_message_area s)
         (show_chat_message_time s) (widgets s) (trace s).

Definition set_inputline (t : cstring) (s : client) : client :=
  Client (history_list s) (history_pos s) (heap s) t (message_buffer s)
         (main_message_area s) (start_message_area s)
         (show_chat_message_time s) (widgets s) (trace s).

Definition set_message_buffer (b : option text_buffer) (s : client) : client :=
  Client (history_list s) (history_pos s) (heap s) (inputline s) b
         (main_message_area s) (start_message_area s)
         (show_chat_message_time s) (widgets s) (trace s).

Definition emit (e : event) (s : client) : client :=
  Client (history_list s) (history_pos s) (heap s) (inputline s)
         (message_buffer s) (main_message_area s) (start_message_area s)
         (show_chat_message_time s) (widgets s) (e :: trace s).

(** ** A state monad over [client] *)

Definition M (A : Type) : Type := client -> A * client.

Definition ret {A} (a : A) : M A := fun s => (a, s).
Definition bind {A B} (m : M A) (k : A -> M B) : M B :=
  fun s => let (a, s') := m s in k a s'.
Definition gets {A} (f : client -> A) : M A := fun s => (f s, s).
Definition modify (f : client -> client) : M unit := fun s => (tt, f s).
Definition when (c : bool) (m : M unit) : M unit := if c then m else ret tt.
Definition exec {A} (m : M A) (s : client) : client := snd (m s).

Notation "x <- m ;; k" := (bind m (fun x => k))
  (at level 100, m at next level, right associativity).
Notation "m ;;; k" := (bind m (fun _ => k))
  (at level 100, right associativity).

(** ** Toolkit and libc calls used by the chat line *)

(** Inserting text at an offset moves the marks behind it; a mark sitting
    exactly at the offset moves only when it has right gravity. *)
Definition shift_mark (iter len : nat) (m : text_mark) : text_mark :=
  if (iter <? mark_offset m)%nat
     || ((iter =? mark_offset m)%nat && negb (mark_left_gravity m))
  then TextMark (mark_offset m + len) (mark_left_gravity m)
  else m.

Definition insert_text (b : text_buffer) (iter : nat) (text : cstring)
  : text_buffer :=
  TextBuffer (take iter (buf_text b) ++ text ++ drop iter (buf_text b))
             (shift_mark iter (length text) <$> buf_marks b).

(** The buffer calls act on the buffer [message_buffer] points to, the only
    buffer of the file.  On a NULL buffer the toolkit's argument check logs
    a critical warning and the call does nothing. *)
Definition gtk_text_buffer_get_end_iter : M nat := fun s =>
  match message_buffer s with
  | Some b => (length (buf_text b), s)
  | None => (0%nat, emit g_critical s)
  end.

(** The iterator is revalidated to point behind the inserted text. *)
Definition gtk_text_buffer_insert (iter : nat) (text : cstring) : M nat :=
  fun s =>
  match message_buffer s with
  | Some b => ((iter + length text)%nat,
               set_message_buffer (Some (insert_text b iter text)) s)
  | None => (iter, emit g_critical s)
  end.

(** An anonymous mark gets an address no other mark of the buffer has. *)
Definition gtk_text_buffer_create_mark (iter : nat) (left_gravity : bool)
  : M N := fun s =>
  match message_buffer s with
  | Some b =>
      let mark := fresh ({[NULL]} ∪ dom (buf_marks b)) in
      (mark,
       set_message_buffer
         (Some (TextBuffer (buf_text b)
                  (<[mark := TextMark iter left_gravity]> (buf_marks b)))) s)
  | None => (NULL, emit g_critical s)
  end.

Definition gtk_text_buffer_delete_mark (mark : N) : M unit := fun s =>
  match message_buffer s with
  | Some b =>
      (tt, set_message_buffer
             (Some (TextBuffer (buf_text b) (delete mark (buf_marks b)))) s)
  | None => (tt, emit g_critical s)
  end.

Definition gtk_widget_get_parent (w : N) : M N := fun s =>
  match widgets s !! w with
  | Some wd => (w_parent wd, s)
  | None => (NULL, s)
  end.

(** [GTK_IS_SCROLLED_WINDOW] and the vertical adjustment read in one step:
    the adjustment of [sw] when it is a scrolled window. *)
Definition gtk_scrolled_window_get_vadjustment (sw : N)
  : M (option adjustment) := fun s =>
  match widgets s !! sw with
  | Some (Widget (GtkScrolledWindow vadj) _) => (Some vadj, s)
  | _ => (None, s)
  end.

(** [g_return_if_fail] on a failed check: a critical warning, then return. *)
Definition g_return : M unit := modify (emit g_critical).

(** Decimal digits of a number, at least two of them (libc's [%02d]). *)
Definition digit (d : nat) : ascii := ascii_of_nat (48 + d).

Definition decimal2 (n : nat) : cstring :=
  if (n <? 100)%nat then [digit (n / 10); digit (n mod 10)]
  else list_ascii_of_string (NilEmpty.string_of_uint (Nat.to_uint n)).

(** The conversions of [strftime] the chat line uses; any other character
    after a percent sign is copied with it. *)
Definition strftime_conversion (c : ascii) (t : tm) : cstring :=
  if Ascii.eqb c "H" then decimal2 (tm_hour t)
  else if Ascii.eqb c "M" then decimal2 (tm_min t)
  else if Ascii.eqb c "S" then decimal2 (tm_sec t)
  else if Ascii.eqb c "%" then ["%"%char]
  else ["%"%char; c].

Fixpoint strftime_format (format : cstring) (t : tm) : cstring :=
  match format with
  | [] => []
  | c :: rest =>
      if Ascii.eqb c "%" then
        match rest with
        | [] => [c]
        | d :: rest' => strftime_conversion d t ++ strftime_format rest' t
        end
      else c :: strftime_format rest t
  end.

(** [strftime (buf, max, format, tm)]: the characters left in [buf]; nothing
    usable when the result and its NUL do not fit in [max] bytes. *)
Definition strftime (max : nat) (format : cstring) (t : tm) : cstring :=
  let out := strftime_format format t in
  if (length out <? max)%nat then out else [].

Definition valid_tm (t : tm) : Prop :=
  (tm_hour t < 24 /\ tm_min t < 60 /\ tm_sec t <= 60)%nat.

(** ** chatline.c *)

Section chatline.

(** The history bound is a macro of chatline.h, which is not among the
    sources; it is a parameter here. *)
Variable MAX_CHATLINE_HISTORY : nat.

(** The address [malloc] hands out for a given heap. *)
Variable malloc : gmap N cstring -> N.

(** Modelled from the spec: [mystrdup] of the absent utility code, a copy
    of the string in a block obtained from [malloc]. *)
Definition mystrdup (str : cstring) : M N := fun s =>
  let p := malloc (heap s) in
  (p, set_heap (<[p := str]> (heap s)) s).

(** [free]: releases the block; nothing on NULL. *)
Definition free (p : N) : M unit :=
  modify (fun s => if (p =? NULL)%N then s
                   else set_heap (delete p (heap s)) s).

Definition nonempty (str : cstring) : bool :=
  match str with
  | [] => false
  | _ :: _ => true
  end.

Definition inputline_return (data : N) : M unit :=
  theinput <- gets inputline;;
  when (nonempty theinput) (
    modify (emit (send_chat theinput));;;
    size <- gets (fun s => genlist_size (history_list s));;
    when (MAX_CHATLINE_HISTORY <=? size)%nat (
      data <- gets (fun s => genlist_get (history_list s) (-1));;
      modify (fun s => set_history_list
                         (genlist_unlink (history_list s) data) s);;;
      free data
    );;;
    copy <- mystrdup theinput;;
    modify (fun s => set_history_list
                       (genlist_prepend (history_list s) copy) s);;;
    modify (set_history_pos (-1))
  );;;
  modify (set_inputline []).

Definition scroll_if_necessary (textview scroll_target : N) : M unit :=
  if (textview =? NULL)%N then g_return else
  if (scroll_target =? NULL)%N then g_return else
  sw <- gtk_widget_get_parent textview;;
  if (sw =? NULL)%N then g_return else
  vadj <- gtk_scrolled_window_get_vadjustment sw;;
  match vadj with
  | None => g_return
  | Some vadj =>
      let val := adj_value vadj in
      let upper := adj_upper vadj in
      let page_size := adj_page_size vadj in
      let max := (upper - page_size)%float in
      when (max - val <? 10)%float
        (modify (emit (gtk_text_view_scroll_to_mark textview scroll_target)))
  end.

(** [now_tm] is what [localtime (time (NULL))] returns at the call. *)
Definition real_append_output_window (astring : cstring) (conn_id : Z)
  (now_tm : tm) : M unit :=
  iter <- gtk_text_buffer_get_end_iter;;
  iter <- gtk_text_buffer_insert iter [newline];;
  mark <- gtk_text_buffer_create_mark iter true;;
  show <- gets show_chat_message_time;;
  iter <- (if show then
             let timebuf :=
               strftime 64 (list_ascii_of_string "[%H:%M:%S] ") now_tm in
             gtk_text_buffer_insert iter timebuf
           else ret iter);;
  iter <- gtk_text_buffer_insert iter astring;;
  main <- gets main_message_area;;
  when (negb (main =? NULL)%N) (scroll_if_necessary main mark);;;
  start <- gets start_message_area;;
  when (negb (start =? NULL)%N) (scroll_if_necessary start mark);;;
  gtk_text_buffer_delete_mark mark;;;
  modify (emit (append_network_statusbar astring false)).

Definition chatline_scroll_to_bottom : M unit :=
  buffer <- gets message_buffer;;
  match buffer with
  | None => ret tt
  | Some _ =>
      end_iter <- gtk_text_buffer_get_end_iter;;
      main <- gets main_message_area;;
      when (negb (main =? NULL)%N)
        (modify (emit (gtk_text_view_scroll_to_iter main end_iter)));;;
      start <- gets start_message_area;;
      when (negb (start =? NULL)%N)
        (modify (emit (gtk_text_view_scroll_to_iter start end_iter)))
  end.

(** The user types each line into the entry and presses return. *)
Fixpoint enter_lines (lines : list cstring) (s : client) : client :=
  match lines with
  | [] => s
  | line :: rest =>
      enter_lines rest (exec (inputline_return NULL) (set_inputline line s))
  end.

End chatline.

(** ** Specenum definition files *)

Module Specenum.

(** The name given to a value: a plain string, or one marked for
    translation with [N_(...)]. *)
Inductive value_name :=
| plain (text : string)
| N_ (text : string).

Record enum_value := EnumValue {
  identifier : string;
  name : option value_name
}.

(** One [enum ... end] block: the words of each option line between the
    header and [values], then the value lines in file order. *)
Record specenum := SpecEnum {
  enum_name : string;
  options : list (list string);
  values : list enum_value
}.

Definition named (id : string) (n : value_name) : enum_value :=
  EnumValue id (Some n).
Definition unnamed (id : string) : enum_value := EnumValue id None.

(** Specenum definitions for common/fc_types.h *)
Definition impr_flag_id : specenum :=
  SpecEnum "impr_flag_id"
    [ ["prefix"; "IF_"];
      ["name-override"];
      ["bitvector"; "bv_impr_flags"];
      ["count"] ]
    [ named "VISIBLE_BY_OTHERS" (plain "VisibleByOthers");
      named "SAVE_SMALL_WONDER" (plain "SaveSmallWonder");
      named "GOLD" (plain "Gold");
      named "DISASTER_PROOF" (plain "DisasterProof");
      named "INDESTRUCTIBLE" (plain "Indestructible");
      unnamed "USER_FLAG_1";
      unnamed "USER_FLAG_2";
      unnamed "USER_FLAG_3";
      unnamed "USER_FLAG_4";
      unnamed "USER_FLAG_5";
      unnamed "USER_FLAG_6";
      unnamed "USER_FLAG_7";
      unnamed "USER_FLAG_8" ].

Definition fc_types_def : list specenum := [impr_flag_id].

(** Specenum definitions for common/terrain.h *)
Definition terrain_class : specenum :=
  SpecEnum "terrain_class"
    [ ["prefix"; "TC_"];
      ["count"];
      ["style"; "identifiers"; "sorted"] ]
    [ named "LAND" (N_ "Land");
      named "OCEAN" (N_ "Oceanic") ].

Definition terrain_alteration : specenum :=
  SpecEnum "terrain_alteration"
    [ ["prefix"; "TA_"];
      ["count"];
      ["style"; "identifiers"; "sorted"] ]
    [ named "CAN_BASE" (N_ "CanBase");
      named "CAN_IRRIGATE" (N_ "CanIrrigate");
      named "CAN_MINE" (N_ "CanMine");
      named "CAN_PLACE" (N_ "CanPlace");
      named "CAN_ROAD" (N_ "CanRoad") ].

Definition terrain_flag_id : specenum :=
  SpecEnum "terrain_flag_id"
    [ ["prefix"; "TER_"];
      ["name-override"];
      ["bitvector"; "bv_terrain_flags"];
      ["style"; "identifiers"; "sorted"] ]
    [ named "CAN_HAVE_RIVER" (N_ "CanHaveRiver");
      named "ENTER_BORDERS" (N_ "EnterBorders");
      named "FRESHWATER" (N_ "FreshWater");
      named "FROZEN" (N_ "Frozen");
      named "NOT_GENERATED" (N_ "NotGenerated");
      named "NO_BARBS" (N_ "NoBarbs");
      named "NO_CITIES" (N_ "NoCities");
      named "NO_ZOC" (N_ "NoZoc");
      named "STARTER" (N_ "Starter");
      named "UNSAFE_COAST" (N_ "UnsafeCoast");
      unnamed "USER_1";
      unnamed "USER_2";
      unnamed "USER_3";
      unnamed "USER_4";
      unnamed "USER_5";
      unnamed "USER_6";
      unnamed "USER_7";
      unnamed "USER_8";
      unnamed "USER_9";
      unnamed "USER_LAST" ].

Definition mapgen_terrain_property : specenum :=
  SpecEnum "mapgen_terrain_property"
    [ ["prefix"; "MG_"];
      ["count"];
      ["style"; "identifiers"; "sorted"] ]
    [ named "COLD" (plain "cold");
      named "DRY" (plain "dry");
      named "FOLIAGE" (plain "foliage");
      named "FROZEN" (plain "frozen");
      named "GREEN" (plain "green");
      named "MOUNTAINOUS" (plain "mountainous");
      named "OCEAN_DEPTH" (plain "ocean_depth");
      named "TEMPERATE" (plain "temperate");
      named "TROPICAL" (plain "tropical");
      named "WET" (plain "wet") ].

Definition terrain_def : list specenum :=
  [terrain_class; terrain_alteration; terrain_flag_id;
   mapgen_terrain_property].

(** Every block of the two files. *)
Definition all_enums : list specenum := fc_types_def ++ terrain_def.

Definition name_text (n : value_name) : string :=
  match n with
  | plain text => text
  | N_ text => text
  end.

(** A value as the pair of its identifier and the text of its name. *)
Definition key_value (v : enum_value) : string * option string :=
  (identifier v, option_map name_text (name v)).

Definition identifiers (e : specenum) : list string :=
  List.map identifier (values e).

Definition has_name (v : enum_value) : bool :=
  match name v with
  | Some _ => true
  | None => false
  end.

Definition named_identifiers (e : specenum) : list string :=
  List.map identifier (List.filter has_name (values e)).

Definition unnamed_identifiers (e : specenum) : list string :=
  List.map identifier (List.filter (fun v => negb (has_name v)) (values e)).

Definition words_eqb (a b : list string) : bool :=
  bool_decide (a = b).

Definition has_option (opt : list string) (e : specenum) : bool :=
  List.existsb (words_eqb opt) (options e).

Definition style_identifiers_sorted : list string :=
  ["style"; "identifiers"; "sorted"].

(** Order of two identifiers by the codes of their characters. *)
Definition ascii_lt (a b : string) : Prop := String.compare a b = Lt.

(** Every identifier of the list is below all the later ones. *)
Fixpoint strictly_ascending (l : list string) : bool :=
  match l with
  | [] => true
  | a :: rest => List.forallb (String.ltb a) rest && strictly_ascending rest
  end.

(** The identifiers [stem1 .. stemN]. *)
Definition numbered (stem : string) (first count : nat) : list string :=
  List.map (fun i => String.append stem (pretty i)) (seq first count).

End Specenum.

(** ** Automake input of the tex AI module *)

Module Automake.

(** A word of a right-hand side is a run of literal text and variable
    references [$(name)]. *)
Inductive piece :=
| text (s : string)
| ref (variable : string).

Inductive stmt :=
| assign (variable : string) (rhs : list (list piece))
| conditional (condition : string) (if_true if_false : list stmt).

Definition word (s : string) : list piece := [text s].

(** [-I$(top_srcdir)/dir] *)
Definition include_dir (dir : string) : list piece :=
  [text "-I"; ref "top_srcdir"; text dir].

(** ai/tex/Makefile.am *)
Definition tex_Makefile_am : list stmt :=
  [ conditional "AI_MOD_STATIC_TEX"
      [ assign "noinst_LTLIBRARIES" [word "libtexai.la"] ]
      [ assign "aimodule_LTLIBRARIES" [word "fc_ai_tex.la"] ];
    assign "AM_CPPFLAGS"
      [ include_dir "/utility";
        include_dir "/common";
        include_dir "/common/aicore";
        include_dir "/common/networking";
        include_dir "/server/";
        include_dir "/server/advisors";
        include_dir "/ai/default";
        include_dir "/dependencies/tinycthread";
        include_dir "/gen_headers/enums" ];
    assign "da_sources"
      [ word "texaicity.c";
        word "texaicity.h";
        word "texaimsg.c";
        word "texaimsg.h";
        word "texaiplayer.c";
        word "texaiplayer.h";
        word "texaiworld.c";
        word "texaiworld.h";
        word "texai.c" ];
    conditional "AI_MOD_STATIC_TEX"
      [ assign "libtexai_la_SOURCES" [[ref "da_sources"]] ]
      [ assign "fc_ai_tex_la_SOURCES" [[ref "da_sources"]];
        assign "fc_ai_tex_la_LDFLAGS" [word "-module"] ] ].

(** The truth value configure gave each conditional. *)
Definition configuration := string -> bool.

(** The assignments in force under a configuration, in file order. *)
Fixpoint active (cfg : configuration) (st : stmt)
  : list (string * list (list piece)) :=
  match st with
  | assign variable rhs => [(variable, rhs)]
  | conditional condition if_true if_false =>
      if cfg condition then List.flat_map (active cfg) if_true
      else List.flat_map (active cfg) if_false
  end.

Definition definitions (cfg : configuration) (mk : list stmt)
  : list (string * list (list piece)) :=
  List.flat_map (active cfg) mk.

(** The value of a variable: its last assignment. *)
Definition value_of (variable : string)
  (defs : list (string * list (list piece))) : option (list (list piece)) :=
  option_map snd
    (List.find (fun d => String.eqb (fst d) variable) (List.rev defs)).

Definition render (p : piece) : string :=
  match p with
  | text s => s
  | ref variable => String.append "$(" (String.append variable ")")
  end.

(** Expansion of a word.  A reference standing alone as a word is replaced
    by the words of the variable; references inside a word (here always the
    configure-time path [top_srcdir]) and references to variables the file
    does not define are kept as written. *)
Fixpoint expand (fuel : nat) (defs : list (string * list (list piece)))
  (w : list piece) : list string :=
  match w with
  | [ref variable] =>
      match fuel, value_of variable defs with
      | S fuel', Some rhs => List.flat_map (expand fuel' defs) rhs
      | _, _ => [render (ref variable)]
      end
  | _ => [String.concat "" (List.map render w)]
  end.

(** The words of a variable after expansion; the number of assignments
    bounds the depth of references between them. *)
Definition words_of (variable : string)
  (defs : list (string * list (list piece))) : option (list string) :=
  option_map (List.flat_map (expand (length defs) defs))
             (value_of variable defs).

Fixpoint ends_with (suffix s : string) : bool :=
  String.eqb suffix s
  || match s with
     | EmptyString => false
     | String _ s' => ends_with suffix s'
     end.

(** The library lists [x_LTLIBRARIES] with their libraries. *)
Definition ltlibraries (defs : list (string * list (list piece)))
  : list (string * list string) :=
  List.map (fun d => (fst d, List.flat_map (expand (length defs) defs) (snd d)))
    (List.filter (fun d => ends_with "_LTLIBRARIES" (fst d)) defs).

Definition is_name_char (c : ascii) : bool :=
  let n := nat_of_ascii c in
  ((48 <=? n) && (n <=? 57) || (65 <=? n) && (n <=? 90)
   || (97 <=? n) && (n <=? 122) || (n =? 95) || (n =? 64))%nat.

(** Automake's canonical form of a target name: every character that is
    not a letter, a digit, an at sign or an underscore becomes an
    underscore. *)
Fixpoint canonical (target : string) : string :=
  match target with
  | EmptyString => EmptyString
  | String c rest =>
      String (if is_name_char c then c else "_"%char) (canonical rest)
  end.

(** The per-target variable [target_SUFFIX]. *)
Definition target_variable (target suffix : string) : string :=
  String.append (canonical target) (String.append "_" suffix).

Definition da_sources_list : list string :=
  [ "texaicity.c"; "texaicity.h"; "texaimsg.c"; "texaimsg.h";
    "texaiplayer.c"; "texaiplayer.h"; "texaiworld.c"; "texaiworld.h";
    "texai.c" ].

End Automake.

(** ** Nation ruleset of the Mongols *)

Module Ruleset.

(** A string of a ruleset file: as written, or marked for translation
    with [_(...)]. *)
Inductive entry :=
| str (s : string)
| tr (s : string).

(** A table: the column names of its first row, then the data rows. *)
Record table := Table {
  columns : list string;
  rows : list (list entry)
}.

Inductive value :=
| scalar (e : entry)
| vector (es : list entry)
| tabular (t : table).

Record section := Section_ {
  section_name : string;
  fields : list (string * value)
}.

(** data/nation/mongol.ruleset; the remarks after semicolons are left out. *)
Definition nation_mongol : section :=
  Section_ "nation_mongol"
    [ ("translation_domain", scalar (str "freeciv-core"));
      ("name", scalar (tr "Mongol"));
      ("plural", scalar (tr "?plural:Mongols"));
      ("groups", vector [str "Medieval"; str "Early Modern"; str "Modern";
                         str "Asian"; str "Core"]);
      ("legend", scalar (tr
         "In the centuries after their unification by Chinggis Khan, the Mongols conquered the largest empire in human history, encompassing most of the continent of Asia. They became notorious for their utter ruthlessness in warfare."));
      ("leaders", tabular (Table
         ["name"; "sex"]
         [ [str "Chinggis"; str "Male"];
           [str "Börte"; str "Female"];
           [str "Ögedei"; str "Male"];
           [str "Bat"; str "Male"];
           [str "Tsagadai"; str "Male"];
           [str "Tolui"; str "Male"];
           [str "Tokhtamysh"; str "Male"];
           [str "Sübeedei"; str "Male"];
           [str "Dörgene"; str "Female"];
           [str "Güyük"; str "Male"];
           [str "Mönkh"; str "Male"];
           [str "Khubilai"; str "Male"];
           [str "Khülegü"; str "Male"];
           [str "Mandukhai"; str "Female"] ]));
      ("ruler_titles", tabular (Table
         ["government"; "male_title"; "female_title"]
         [ [str "Despotism"; tr "%s Khan"; tr "%s Khatan"];
           [str "Monarchy"; tr "%s Khagan"; tr "?female:%s Khagan"] ]));
      ("flag", scalar (str "mongolia"));
      ("flag_alt", scalar (str "-"));
      ("style", scalar (str "Asian"));
      ("init_techs", scalar (str ""));
      ("init_buildings", scalar (str ""));
      ("init_units", scalar (str ""));
      ("civilwar_nations", vector
         [str "Tibetan"; str "Tuvan"; str "Kalmyk"; str "Timurid";
          str "Uyghur"; str "Tatar"; str "Crimean Tatar"; str "Buryat";
          str "Golden Horde"; str "Chinese"]);
      ("cities", vector
         [str "Karakorum"; str "Ulaanbaatar"; str "Sainshand";
          str "Ulaangom"; str "Khovd"; str "Tsetserleg"; str "Altanbulag";
          str "Zuunmod"; str "Bayankhongor"; str "Dalanzadgad";
          str "Choibalsan"; str "Erdenet"; str "Mandalgovi"; str "Mörön";
          str "Sükhbaatar"; str "Züünkharaa"; str "Öndörkhaan"; str "Ölgii";
          str "Arvaikheer"; str "Bulgan"; str "Altai"; str "Baruun-Urt";
          str "Choir"; str "Darkhan"; str "Bayan-Uul"; str "Nalaikh";
          str "Zamyn-Üüd"; str "Khatgal"; str "Uliastai"; str "Khuld"]) ].

Definition entry_text (e : entry) : string :=
  match e with
  | str s => s
  | tr s => s
  end.

(** The table stored under a field name, if the field is a table. *)
Definition table_of (field : string) (sec : section) : option table :=
  match List.find (fun f => String.eqb (fst f) field) (fields sec) with
  | Some (_, tabular t) => Some t
  | _ => None
  end.

Fixpoint column_index (column : string) (cols : list string) : option nat :=
  match cols with
  | [] => None
  | c :: rest =>
      if String.eqb c column then Some 0%nat
      else option_map S (column_index column rest)
  end.

(** The cell of a row under a named column. *)
Definition cell (t : table) (column : string) (row : list entry)
  : option entry :=
  match column_index column (columns t) with
  | Some i => List.nth_error row i
  | None => None
  end.

(** [contains sub s]: [sub] occurs in [s] as a run of characters. *)
Fixpoint contains (sub s : string) : bool :=
  String.prefix sub s
  || match s with
     | EmptyString => false
     | String _ s' => contains sub s'
     end.

Definition occurs (sub s : string) : Prop :=
  exists before after,
    s = String.append before (String.append sub after).

Definition is_sex (e : entry) : bool :=
  String.eqb (entry_text e) "Male" || String.eqb (entry_text e) "Female".

Definition has_leader_slot (e : entry) : bool :=
  contains "%s" (entry_text e).

End Ruleset.

(** ** Auxiliary notions for the statements *)

(** The heap after the history cap has run on a full history. *)
Definition heap_after_cap (s : client) : gmap N cstring :=
  let data := genlist_get (history_list s) (-1) in
  if (data =? NULL)%N then heap s else delete data (heap s).

(** What the code relies on between calls: the stored pointers are
    distinct, not NULL, and each is a live block of the heap. *)
Definition history_ok (s : client) : Prop :=
  NoDup (history_list s)
  /\ (NULL ∉ history_list s)
  /\ forall p, p ∈ history_list s -> is_Some (heap s !! p).

(** A concrete allocator: the least address that is neither NULL nor in
    use. *)
Definition next_block (h : gmap N cstring) : N :=
  fresh ({[NULL]} ∪ dom h).

(** The scroll requests among the recorded calls. *)
Definition is_scroll (e : event) : bool :=
  match e with
  | gtk_text_view_scroll_to_mark _ _ => true
  | gtk_text_view_scroll_to_iter _ _ => true
  | _ => false
  end.

Definition scroll_calls (s : client) : list event :=
  List.filter is_scroll (trace s).

(** The parent of a widget, and the vertical adjustment of a widget that
    is a scrolled window, read off a state. *)
Definition parent_of (s : client) (w : N) : N :=
  fst (gtk_widget_get_parent w s).

Definition vadjustment_of (s : client) (sw : N) : option adjustment :=
  fst (gtk_scrolled_window_get_vadjustment sw s).

(** What [real_append_output_window] writes between the newline and the
    message: the formatted time when time stamps are on, nothing
    otherwise. *)
Definition time_stamp (s : client) (now_tm : tm) : cstring :=
  if show_chat_message_time s
  then strftime 64 (list_ascii_of_string "[%H:%M:%S] ") now_tm
  else [].

(** The characters of the message buffer; none when there is no buffer. *)
Definition output_text (s : client) : cstring :=
  match message_buffer s with
  | Some b => buf_text b
  | None => []
  end.

(** The text the pattern [[%H:%M:%S] ] stands for: bracket, two-digit
    hour, colon, two-digit minute, colon, two-digit second, bracket,
    space. *)
Definition two_digits (n : nat) : cstring :=
  [digit (n / 10); digit (n mod 10)].

Definition clock_stamp (t : tm) : cstring :=
  ["["%char] ++ two_digits (tm_hour t) ++ [":"%char]
  ++ two_digits (tm_min t) ++ [":"%char]
  ++ two_digits (tm_sec t) ++ ["]"%char; " "%char].

(** ** Sample states *)

(** Two stored lines, a third one typed. *)
Definition full_history : client :=
  Client [2%N; 1%N] 0
    (<[1%N := list_ascii_of_string "first"]>
       (<[2%N := list_ascii_of_string "second"]> ∅))
    (list_ascii_of_string "third") None NULL NULL false ∅ [].

(** A message area (widget 5) inside a scrolled window (widget 6) whose
    adjustment is given, over a buffer holding one line. *)
Definition chat_window (vadj : adjustment) (show_time : bool) : client :=
  Client [] 0 ∅ []
    (Some (TextBuffer (list_ascii_of_string "Welcome") ∅))
    5%N NULL show_time
    (<[5%N := Widget GtkTextView 6%N]>
       (<[6%N := Widget (GtkScrolledWindow vadj) NULL]> ∅))
    [].

(** ** The other output window routines of chatline.c *)

(** Deleting the characters from [start] up to [stop]: a mark inside the
    range lands on [start], a mark behind it moves forward. *)
Definition collapse_mark (start stop : nat) (m : text_mark) : text_mark :=
  if (mark_offset m <=? start)%nat then m
  else if (mark_offset m <? stop)%nat
       then TextMark start (mark_left_gravity m)
       else TextMark (mark_offset m - (stop - start)) (mark_left_gravity m).

Definition delete_text (b : text_buffer) (start stop : nat) : text_buffer :=
  TextBuffer (take start (buf_text b) ++ drop stop (buf_text b))
             (collapse_mark start stop <$> buf_marks b).

(** The start and end iterators of the buffer. *)
Definition gtk_text_buffer_get_bounds : M (nat * nat) := fun s =>
  match message_buffer s with
  | Some b => ((0%nat, length (buf_text b)), s)
  | None => ((0%nat, 0%nat), emit g_critical s)
  end.

(** The buffer is emptied, then the text is inserted at its start. *)
Definition gtk_text_buffer_set_text (text : cstring) : M unit := fun s =>
  match message_buffer s with
  | Some b =>
      (tt, set_message_buffer
             (Some (insert_text
                      (delete_text b 0 (length (buf_text b))) 0 text)) s)
  | None => (tt, emit g_critical s)
  end.

Section output_window.

Variable malloc : gmap N cstring -> N.

(** The translation [_(...)] of a message of the client. *)
Variable gettext : cstring -> cstring.

(** The characters between two iterators, in a newly allocated block;
    NULL, after the toolkit's warning, when there is no buffer. *)
Definition gtk_text_buffer_get_text (start stop : nat)
  (include_hidden_chars : bool) : M N := fun s =>
  match message_buffer s with
  | Some b =>
      mystrdup malloc (take (stop - start) (drop start (buf_text b))) s
  | None => (NULL, emit g_critical s)
  end.

(** [write_chatline_content] belongs to the common client code, which is
    not among the sources; the value of [log_output_window] is the string
    it is handed, if [txt] points to one. *)
Definition log_output_window : M (option cstring) :=
  bounds <- gtk_text_buffer_get_bounds;;
  txt <- gtk_text_buffer_get_text (fst bounds) (snd bounds) true;;
  written <- gets (fun s => heap s !! txt);;
  free txt;;;
  ret written.

Definition set_output_window_text (text : cstring) : M unit :=
  gtk_text_buffer_set_text text.

Definition clear_output_window : M unit :=
  set_output_window_text
    (gettext (list_ascii_of_string "Cleared output window.")).

End output_window.

(** The marks of the message buffer; none when there is no buffer. *)
Definition output_marks (s : client) : gmap N text_mark :=
  match message_buffer s with
  | Some b => buf_marks b
  | None => ∅
  end.

(** Where a mark of the buffer is after text of length [len] was appended
    behind [old_len] characters: a right-gravity mark at the end follows
    the end, every other mark stays. *)
Definition mark_after_append (old_len len : nat) (m : text_mark) : text_mark :=
  if (mark_offset m =? old_len)%nat && negb (mark_left_gravity m)
  then TextMark (old_len + len) false
  else m.

(** The strings the history points to, newest first. *)
Definition history_lines (s : client) : list (option cstring) :=
  List.map (fun p => heap s !! p) (history_list s).

(** The chat messages sent so far, newest first. *)
Definition sent_messages (s : client) : list cstring :=
  omap (fun e => match e with
                 | send_chat message => Some message
                 | _ => None
                 end) (trace s).

(** The lines that are not empty. *)
Definition typed (lines : list cstring) : list cstring :=
  List.filter nonempty lines.

(** The fields no output window routine writes: all but the message
    buffer and the record of calls. *)
Definition same_globals (s s' : client) : Prop :=
  history_list s' = history_list s
  /\ history_pos s' = history_pos s
  /\ heap s' = heap s
  /\ inputline s' = inputline s
  /\ main_message_area s' = main_message_area s
  /\ start_message_area s' = start_message_area s
  /\ show_chat_message_time s' = show_chat_message_time s
  /\ widgets s' = widgets s.

(** A run that writes none of those fields and only adds to the record of
    calls. *)
Definition grows (s s' : client) : Prop :=
  same_globals s s' /\ exists evs, trace s' = evs ++ trace s.

(** A computation all of whose runs grow the state. *)
Definition growing {A} (m : M A) : Prop := forall s, grows s (snd (m s)).

(** [real_append_output_window] up to the insertion of the string; the
    value is the mark it created. *)
Definition append_text (astring : cstring) (now_tm : tm) : M N :=
  iter <- gtk_text_buffer_get_end_iter;;
  iter <- gtk_text_buffer_insert iter [newline];;
  mark <- gtk_text_buffer_create_mark iter true;;
  show <- gets show_chat_message_time;;
  iter <- (if show then
             let timebuf :=
               strftime 64 (list_ascii_of_string "[%H:%M:%S] ") now_tm in
             gtk_text_buffer_insert iter timebuf
           else ret iter);;
  iter <- gtk_text_buffer_insert iter astring;;
  ret mark.

(** [real_append_output_window] from the first scroll attempt on. *)
Definition show_appended (astring : cstring) (mark : N) : M unit :=
  main <- gets main_message_area;;
  when (negb (main =? NULL)%N) (scroll_if_necessary main mark);;;
  start <- gets start_message_area;;
  when (negb (start =? NULL)%N) (scroll_if_necessary start mark);;;
  gtk_text_buffer_delete_mark mark;;;
  modify (emit (append_network_statusbar astring false)).

(** No history, no buffer, no widgets. *)
Definition no_history : client :=
  Client [] 0 ∅ [] None NULL NULL false ∅ [].

(** A buffer whose insertion cursor (mark 1, right gravity) is at the end
    and which has a bookmark (mark 2, left gravity) at offset 3. *)
Definition marked_window : client :=
  Client [] 0 ∅ []
    (Some (TextBuffer (list_ascii_of_string "Welcome")
             (<[1%N := TextMark 7 false]> (<[2%N := TextMark 3 true]> ∅))))
    5%N NULL true
    (<[5%N := Widget GtkTextView 6%N]>
       (<[6%N := Widget (GtkScrolledWindow (Adjustment 95 200 100)) NULL]> ∅))
    [].


(** ** Automake input of the tools directory *)

Module AutomakeTools.

Import Automake.

(** tools/Makefile.am also appends to variables, includes a fragment and
    uses conditionals without an else branch. *)
Inductive line :=
| set (variable : string) (rhs : list (list piece))
| add (variable : string) (rhs : list (list piece))
| include (path : list piece)
| guarded (condition : string) (body : list line).

(** tools/Makefile.am *)
Definition tools_Makefile_am : list line :=
  [ set "SUBDIRS" [word "shared"; word "ruleutil"; word "fcmp"];
    guarded "RULEDIT" [ add "SUBDIRS" [word "ruledit"] ];
    guarded "FCMANUAL" [ add "SUBDIRS" [word "manual"] ];
    include [ref "top_srcdir"; text "/bootstrap/Makerules.mk"];
    set "bin_PROGRAMS" [];
    guarded "FCRULEUP" [ add "bin_PROGRAMS" [word "freeciv-ruleup"] ];
    set "common_cppflags"
      [ include_dir "/dependencies/cvercmp";
        include_dir "/utility";
        include_dir "/common";
        include_dir "/common/aicore";
        include_dir "/common/networking";
        include_dir "/server";
        include_dir "/server/ruleset";
        include_dir "/tools/ruleutil";
        include_dir "/tools/shared";
        include_dir "/dependencies/tinycthread";
        include_dir "/gen_headers/enums" ];
    set "AM_CPPFLAGS" [[ref "common_cppflags"]];
    set "freeciv_ruleup_SOURCES" [word "ruleup.c"];
    set "freeciv_ruleup_LDADD"
      [ [ref "top_builddir"; text "/server/libfreeciv-srv.la"];
        [ref "top_builddir"; text "/common/libfreeciv.la"];
        [ref "top_builddir"; text "/tools/ruleutil/libfcruleutil.la"];
        [ref "top_builddir"; text "/tools/shared/libtoolsshared.la"];
        [ref "top_builddir"; text "/dependencies/cvercmp/libcvercmp.la"];
        [ref "TINYCTHR_LIBS"]; [ref "MAPIMG_WAND_LIBS"];
        [ref "SERVER_LIBS"] ] ].

Section run.

Variable cfg : configuration.

(** What the included fragment, which is not among the sources, does to
    the assignments made before it. *)
Variable included :
  list (string * list (list piece)) -> list (string * list (list piece)).

(** The assignments after a line, given those before it: [=] starts the
    variable afresh, [+=] extends its value so far. *)
Fixpoint run_line (l : line) (defs : list (string * list (list piece)))
  : list (string * list (list piece)) :=
  match l with
  | set variable rhs => defs ++ [(variable, rhs)]
  | add variable rhs =>
      defs ++ [(variable, default [] (value_of variable defs) ++ rhs)]
  | include _ => included defs
  | guarded condition body =>
      if cfg condition
      then List.fold_left (fun d l' => run_line l' d) body defs
      else defs
  end.

Definition run_lines (mk : list line)
  : list (string * list (list piece)) :=
  List.fold_left (fun d l => run_line l d) mk [].

End run.

End AutomakeTools.

(** ** Well-formedness of the nation ruleset *)

Module RulesetChecks.

Import Ruleset.

(** The list stored under a field name, if the field is a list. *)
Definition vector_of (field : string) (sec : section)
  : option (list entry) :=
  match List.find (fun f => String.eqb (fst f) field) (fields sec) with
  | Some (_, vector es) => Some es
  | _ => None
  end.

(** Every row has one cell per column. *)
Definition rectangular (t : table) : Prop :=
  Forall (fun row => length row = length (columns t)) (rows t).

(** The texts of one column, top to bottom. *)
Definition column_texts (t : table) (column : string)
  : list (option string) :=
  List.map (fun row => option_map entry_text (cell t column row)) (rows t).

End RulesetChecks.

(** The names given to the values of a block, in file order. *)
Definition value_names (e : Specenum.specenum) : list string :=
  omap (fun v => option_map Specenum.name_text (Specenum.name v))
       (Specenum.values e).

(** * Properties *)

(** ** The genlist operations *)

Section genlist_facts.

Implicit Types (l : list N) (p : N).

Lemma genlist_get_last l p : genlist_get (l ++ [p]) (-1) = p.
Proof. unfold genlist_get. simpl. apply List.last_last. Qed.

Lemma genlist_get_nil : genlist_get [] (-1) = NULL.
Proof. reflexivity. Qed.

Lemma genlist_unlink_absent l p : p ∉ l -> genlist_unlink l p = l.
Proof.
  induction l as [|x l IH]; intros Hp; simpl; [done|].
  apply not_elem_of_cons in Hp as [Hne Hp].
  destruct (N.eqb_spec x p); [congruence|]. by rewrite IH.
Qed.

Lemma genlist_unlink_last l p :
  p ∉ l -> genlist_unlink (l ++ [p]) p = l.
Proof.
  induction l as [|x l IH]; intros Hp; simpl.
  - by rewrite N.eqb_refl.
  - apply not_elem_of_cons in Hp as [Hne Hp].
    destruct (N.eqb_spec x p); [congruence|]. by rewrite IH.
Qed.

Lemma genlist_unlink_length_present l p :
  p ∈ l -> S (length (genlist_unlink l p)) = length l.
Proof.
  induction l as [|x l IH]; intros Hp; simpl.
  - by apply elem_of_nil in Hp.
  - destruct (N.eqb_spec x p) as [->|Hne]; [done|].
    apply elem_of_cons in Hp as [->|Hp]; [done|].
    simpl. by rewrite IH.
Qed.

Lemma genlist_unlink_subset l p q : q ∈ genlist_unlink l p -> q ∈ l.
Proof.
  induction l as [|x l IH]; simpl; [done|].
  destruct (N.eqb_spec x p) as [->|Hne]; intros Hq.
  - by apply elem_of_cons; right.
  - apply elem_of_cons in Hq as [->|Hq]; apply elem_of_cons; auto.
Qed.

Lemma genlist_get_last_elem l : l ≠ [] -> genlist_get l (-1) ∈ l.
Proof.
  intros Hl. destruct (exists_last Hl) as (init & x & ->).
  rewrite genlist_get_last. apply elem_of_app. right. by apply list_elem_of_singleton.
Qed.

Lemma list_nil_or_snoc l : l = [] \/ exists init x, l = init ++ [x].
Proof.
  destruct l as [|a l]; [by left|]. right.
  destruct (exists_last (l:=a :: l)) as (init & x & E); [done|]. eauto.
Qed.

Lemma NoDup_snoc_inv l p : NoDup (l ++ [p]) -> p ∉ l.
Proof.
  intros H%NoDup_app. destruct H as (_ & H & _).
  intros Hin. apply (H p Hin). by apply list_elem_of_singleton.
Qed.

End genlist_facts.

(** ** The return handler of the chat entry *)

Section inputline_facts.

Variable MAX_CHATLINE_HISTORY : nat.
Variable malloc : gmap N cstring -> N.

Local Abbreviation inputline_return :=
  (inputline_return MAX_CHATLINE_HISTORY malloc).

Lemma inputline_return_empty s data :
  inputline s = [] -> inputline_return data s = (tt, s).
Proof.
  intros H. unfold inputline_return, bind, gets, when, modify, ret. rewrite H.
  simpl. destruct s; simpl in *; by subst.
Qed.

Lemma inputline_return_full s data :
  inputline s ≠ [] ->
  (MAX_CHATLINE_HISTORY <= length (history_list s))%nat ->
  let l := history_list s in
  let h := heap_after_cap s in
  inputline_return data s =
  (tt, Client (malloc h :: genlist_unlink l (genlist_get l (-1))) (-1)
         (<[malloc h := inputline s]> h) [] (message_buffer s)
         (main_message_area s) (start_message_area s)
         (show_chat_message_time s) (widgets s)
         (send_chat (inputline s) :: trace s)).
Proof.
  intros Hne Hfull. unfold inputline_return, heap_after_cap. cbv zeta.
  unfold bind, gets, when, modify, ret, mystrdup, free, genlist_size.
  destruct (inputline s) as [|c t] eqn:Hin; [done|]. simpl.
  apply Nat.leb_le in Hfull. rewrite Hfull. simpl.
  destruct (genlist_get (history_list s) (-1) =? NULL)%N; reflexivity.
Qed.

Lemma inputline_return_room s data :
  inputline s ≠ [] ->
  (length (history_list s) < MAX_CHATLINE_HISTORY)%nat ->
  inputline_return data s =
  (tt, Client (malloc (heap s) :: history_list s) (-1)
         (<[malloc (heap s) := inputline s]> (heap s)) [] (message_buffer s)
         (main_message_area s) (start_message_area s)
         (show_chat_message_time s) (widgets s)
         (send_chat (inputline s) :: trace s)).
Proof.
  intros Hne Hroom. unfold inputline_return.
  unfold bind, gets, when, modify, ret, mystrdup, free, genlist_size.
  destruct (inputline s) as [|c t] eqn:Hin; [done|]. simpl.
  apply Nat.leb_gt in Hroom. rewrite Hroom. reflexivity.
Qed.

(** The length bound needs nothing but a positive cap. *)
Lemma inputline_return_length s data :
  (0 < MAX_CHATLINE_HISTORY)%nat ->
  (length (history_list s) <= MAX_CHATLINE_HISTORY)%nat ->
  (length (history_list (exec (inputline_return data) s))
   <= MAX_CHATLINE_HISTORY)%nat.
Proof.
  intros Hpos Hlen. unfold exec.
  destruct (inputline s) as [|c t] eqn:Hin.
  { by rewrite inputline_return_empty. }
  assert (inputline s ≠ []) as Hne by (by rewrite Hin).
  destruct (Nat.le_gt_cases MAX_CHATLINE_HISTORY (length (history_list s)))
    as [Hfull|Hroom].
  - rewrite inputline_return_full by done. simpl.
    assert (history_list s ≠ []) as Hl.
    { intros E. rewrite E in Hfull. simpl in Hfull. lia. }
    pose proof (genlist_unlink_length_present _ _ (genlist_get_last_elem _ Hl)).
    lia.
  - rewrite inputline_return_room by done. simpl. lia.
Qed.

Hypothesis malloc_fresh :
  forall h : gmap N cstring, malloc h ≠ NULL /\ h !! malloc h = None.

Lemma inputline_return_history_ok s data :
  history_ok s -> history_ok (exec (inputline_return data) s).
Proof.
  intros (Hnd & Hnull & Hlive). unfold exec.
  destruct (inputline s) as [|c t] eqn:Hin.
  { by rewrite inputline_return_empty. }
  assert (inputline s ≠ []) as Hne by (by rewrite Hin).
  destruct (Nat.le_gt_cases MAX_CHATLINE_HISTORY (length (history_list s)))
    as [Hfull|Hroom].
  - rewrite inputline_return_full by done. unfold history_ok. simpl.
    destruct (malloc_fresh (heap_after_cap s)) as [Hp Hfree].
    assert (forall q, q ∈ genlist_unlink (history_list s)
                           (genlist_get (history_list s) (-1)) ->
                      is_Some (heap_after_cap s !! q)) as Hlive'.
    { intros q Hq. unfold heap_after_cap.
      destruct (list_nil_or_snoc (history_list s)) as [E|(l & x & E)];
        rewrite E in *.
      { simpl in Hq. by apply elem_of_nil in Hq. }
      rewrite genlist_get_last in *.
      pose proof (NoDup_snoc_inv _ _ Hnd) as Hx.
      rewrite genlist_unlink_last in Hq by done.
      destruct (N.eqb_spec x NULL) as [->|Hx0].
      - apply Hlive, elem_of_app; auto.
      - rewrite lookup_delete_ne by (intros ->; done).
        apply Hlive, elem_of_app; auto. }
    split; [|split].
    + apply NoDup_cons. split.
      * intros Hin'. apply Hlive' in Hin'. rewrite Hfree in Hin'.
        by destruct Hin'.
      * destruct (list_nil_or_snoc (history_list s)) as [E|(l & x & E)];
          rewrite E in *; [constructor|].
        rewrite genlist_get_last.
        rewrite genlist_unlink_last by (by apply NoDup_snoc_inv).
        by apply NoDup_app in Hnd as (? & _).
    + apply not_elem_of_cons. split; [done|].
      intros Hq. by apply genlist_unlink_subset in Hq.
    + intros q [->|Hq]%elem_of_cons.
      * rewrite lookup_insert_eq. eauto.
      * rewrite lookup_insert_ne; [by apply Hlive'|].
        intros <-. apply Hlive' in Hq. rewrite Hfree in Hq. by destruct Hq.
  - rewrite inputline_return_room by done. unfold history_ok. simpl.
    destruct (malloc_fresh (heap s)) as [Hp Hfree].
    split; [|split].
    + apply NoDup_cons. split; [|done].
      intros Hq%Hlive. rewrite Hfree in Hq. by destruct Hq.
    + apply not_elem_of_cons. by split.
    + intros q [->|Hq]%elem_of_cons.
      * rewrite lookup_insert_eq. eauto.
      * rewrite lookup_insert_ne; [by apply Hlive|].
        intros <-. apply Hlive in Hq. rewrite Hfree in Hq. by destruct Hq.
Qed.

(** Both properties hold after any number of lines entered. *)
Lemma enter_lines_history (lines : list cstring) (s : client) :
  (0 < MAX_CHATLINE_HISTORY)%nat ->
  history_ok s ->
  (length (history_list s) <= MAX_CHATLINE_HISTORY)%nat ->
  let s' := enter_lines MAX_CHATLINE_HISTORY malloc lines s in
  history_ok s' /\ (length (history_list s') <= MAX_CHATLINE_HISTORY)%nat.
Proof.
  intros Hpos. revert s. induction lines as [|line rest IH]; intros s Hok Hlen.
  - by split.
  - simpl. apply IH.
    + by apply inputline_return_history_ok.
    + by apply inputline_return_length.
Qed.

(** C1: with non-empty entry text and a history of [MAX_CHATLINE_HISTORY]
    or more entries, the oldest entry (the last link) is unlinked and its
    block freed, and only then the copy of the input is allocated and put
    at the front; so a history within the cap stays within the cap.  The
    cap is positive and the stored pointers are distinct and not NULL. *)
Theorem inputline_return_caps_history (s : client) (data : N) :
  (0 < MAX_CHATLINE_HISTORY)%nat ->
  inputline s ≠ [] ->
  NoDup (history_list s) ->
  NULL ∉ history_list s ->
  let s' := exec (inputline_return data) s in
  ((MAX_CHATLINE_HISTORY <= length (history_list s))%nat ->
   exists init oldest,
     history_list s = init ++ [oldest]
     /\ history_list s' = malloc (delete oldest (heap s)) :: init
     /\ heap s' = <[malloc (delete oldest (heap s)) := inputline s]>
                    (delete oldest (heap s)))
  /\ ((length (history_list s) <= MAX_CHATLINE_HISTORY)%nat ->
      (length (history_list s') <= MAX_CHATLINE_HISTORY)%nat).
Proof.
  intros Hpos Hne Hnd Hnull s'. split.
  - intros Hfull. subst s'. unfold exec.
    rewrite inputline_return_full by done. simpl.
    destruct (list_nil_or_snoc (history_list s)) as [E|(init & oldest & E)].
    { rewrite E in Hfull. simpl in Hfull. lia. }
    exists init, oldest. split; [done|].
    assert (oldest ≠ NULL) as Hold.
    { intros ->. apply Hnull. rewrite E. apply elem_of_app. right.
      by apply list_elem_of_singleton. }
    unfold heap_after_cap. rewrite E in *. rewrite genlist_get_last.
    rewrite genlist_unlink_last by (by apply NoDup_snoc_inv).
    destruct (N.eqb_spec oldest NULL); [done|]. done.
  - intros Hlen. by apply inputline_return_length.
Qed.

(** C5: the entry is empty after every call; on empty entry text the
    whole state, with the history list, the history position and the
    record of sent messages, is what it was; on non-empty text exactly one
    chat message, the text, is sent. *)
Theorem inputline_return_clears_entry (s : client) (data : N) :
  let s' := exec (inputline_return data) s in
  inputline s' = []
  /\ (inputline s = [] -> s' = s)
  /\ (inputline s ≠ [] -> trace s' = send_chat (inputline s) :: trace s).
Proof.
  intros s'. subst s'. unfold exec. split; [|split].
  - destruct (inputline s) as [|c t] eqn:Hin.
    { by rewrite inputline_return_empty. }
    assert (inputline s ≠ []) as Hne by (by rewrite Hin).
    destruct (Nat.le_gt_cases MAX_CHATLINE_HISTORY (length (history_list s))).
    + by rewrite inputline_return_full.
    + by rewrite inputline_return_room.
  - intros H. by rewrite inputline_return_empty.
  - intros Hne.
    destruct (Nat.le_gt_cases MAX_CHATLINE_HISTORY (length (history_list s))).
    + by rewrite inputline_return_full.
    + by rewrite inputline_return_room.
Qed.

End inputline_facts.

Lemma next_block_fresh (h : gmap N cstring) :
  next_block h ≠ NULL /\ h !! next_block h = None.
Proof.
  pose proof (is_fresh ({[NULL]} ∪ dom h)) as H. fold (next_block h) in H.
  split.
  - intros E. apply H. rewrite E. set_solver.
  - apply not_elem_of_dom. set_solver.
Qed.

Lemma inputline_return_caps_history_witness :
  let s := full_history in
  let s' := exec (inputline_return 2 next_block 0%N) s in
  (exists init oldest,
     history_list s = init ++ [oldest]
     /\ history_list s' = next_block (delete oldest (heap s)) :: init
     /\ heap s' = <[next_block (delete oldest (heap s)) := inputline s]>
                    (delete oldest (heap s)))
  /\ (length (history_list s') <= 2)%nat.
Proof.
  intros s s'.
  destruct (inputline_return_caps_history 2 next_block s 0%N) as [H1 H2].
  - lia.
  - discriminate.
  - compute_done.
  - compute_done.
  - split; [apply H1 | apply H2]; simpl; lia.
Defined.

(** ** Comparison of doubles *)

Lemma SFcompare_antisym (x y : SpecFloat.spec_float) (c : comparison) :
  SpecFloat.SFcompare x y = Some c ->
  SpecFloat.SFcompare y x = Some (CompOpp c).
Proof.
  destruct x as [sx|sx| |sx mx ex], y as [sy|sy| |sy my ey]; simpl;
    try discriminate;
    try (destruct sx; intros [= <-]; reflexivity);
    try (destruct sy; intros [= <-]; reflexivity);
    try (destruct sx, sy; intros [= <-]; reflexivity).
  rewrite (Z.compare_antisym ex ey).
  change (Pos.compare_cont Eq my mx) with (Pos.compare my mx).
  change (Pos.compare_cont Eq mx my) with (Pos.compare mx my).
  rewrite (Pos.compare_antisym mx my).
  destruct sx, sy; intros [= <-]; try reflexivity;
    destruct (ex ?= ey)%Z; simpl; try reflexivity;
    destruct (mx ?= my)%positive; reflexivity.
Qed.

(** A double that is 10.0 or more is not below 10.0 (and a NaN is
    neither). *)
Lemma float_leb_not_ltb (x y : float) :
  (x <=? y)%float = true -> (y <? x)%float = false.
Proof.
  rewrite leb_spec, ltb_spec. unfold SpecFloat.SFleb, SpecFloat.SFltb.
  destruct (SpecFloat.SFcompare (Prim2SF x) (Prim2SF y)) as [c|] eqn:E;
    [|discriminate].
  rewrite (SFcompare_antisym _ _ _ E). by destruct c.
Qed.

(** ** Scrolling *)

Lemma scroll_if_necessary_guard (s : client) (textview mark : N) :
  textview = NULL \/ mark = NULL \/ parent_of s textview = NULL
  \/ vadjustment_of s (parent_of s textview) = None ->
  scroll_if_necessary textview mark s = (tt, emit g_critical s).
Proof.
  unfold scroll_if_necessary, parent_of, vadjustment_of, g_return, modify, bind.
  intros H.
  destruct (N.eqb_spec textview NULL) as [|Htv]; [done|].
  destruct (N.eqb_spec mark NULL) as [|Hm]; [done|].
  destruct (gtk_widget_get_parent textview s) as [sw s1] eqn:Hp.
  assert (s1 = s) as ->.
  { unfold gtk_widget_get_parent in Hp.
    destruct (widgets s !! textview); by inversion Hp. }
  simpl in H.
  destruct (N.eqb_spec sw NULL) as [|Hsw]; [done|].
  destruct (gtk_scrolled_window_get_vadjustment sw s) as [vadj s2] eqn:Hv.
  assert (s2 = s) as ->.
  { unfold gtk_scrolled_window_get_vadjustment in Hv.
    destruct (widgets s !! sw) as [[[] ?]|]; by inversion Hv. }
  simpl in H. destruct H as [|[|[|H]]]; try done. by rewrite H.
Qed.

Lemma scroll_if_necessary_run (s : client) (textview mark : N)
  (vadj : adjustment) :
  textview ≠ NULL -> mark ≠ NULL -> parent_of s textview ≠ NULL ->
  vadjustment_of s (parent_of s textview) = Some vadj ->
  scroll_if_necessary textview mark s =
  (tt, if (adj_upper vadj - adj_page_size vadj - adj_value vadj <? 10)%float
       then emit (gtk_text_view_scroll_to_mark textview mark) s
       else s).
Proof.
  unfold scroll_if_necessary, parent_of, vadjustment_of, when, modify, ret, bind.
  intros Htv Hm.
  destruct (N.eqb_spec textview NULL); [done|].
  destruct (N.eqb_spec mark NULL); [done|].
  destruct (gtk_widget_get_parent textview s) as [sw s1] eqn:Hp.
  assert (s1 = s) as ->.
  { unfold gtk_widget_get_parent in Hp.
    destruct (widgets s !! textview); by inversion Hp. }
  simpl. intros Hsw.
  destruct (N.eqb_spec sw NULL); [done|].
  destruct (gtk_scrolled_window_get_vadjustment sw s) as [v s2] eqn:Hv.
  assert (s2 = s) as ->.
  { unfold gtk_scrolled_window_get_vadjustment in Hv.
    destruct (widgets s !! sw) as [[[] ?]|]; by inversion Hv. }
  simpl. intros ->.
  by destruct (adj_upper vadj - adj_page_size vadj - adj_value vadj <? 10)%float.
Qed.

Lemma emit_neq (e : event) (s : client) : emit e s ≠ s.
Proof.
  intros H. apply (f_equal (fun x => length (trace x))) in H. simpl in H. lia.
Qed.

(** C2: for a text view inside a scrolled window, the view is scrolled to
    the mark exactly when (upper - page_size) - value of the window's
    vertical adjustment is below 10.0; at 10.0 or more the state, and with
    it the scroll position, is untouched. *)
Theorem scroll_if_necessary_near_bottom (s : client) (textview mark : N)
  (vadj : adjustment) :
  textview ≠ NULL -> mark ≠ NULL -> parent_of s textview ≠ NULL ->
  vadjustment_of s (parent_of s textview) = Some vadj ->
  let distance :=
    (adj_upper vadj - adj_page_size vadj - adj_value vadj)%float in
  let s' := exec (scroll_if_necessary textview mark) s in
  ((distance <? 10)%float = true
   <-> s' = emit (gtk_text_view_scroll_to_mark textview mark) s)
  /\ ((10 <=? distance)%float = true -> s' = s)
  /\ ((distance <? 10)%float = false -> s' = s).
Proof.
  intros Htv Hm Hsw Hv distance s'. subst s'. unfold exec.
  rewrite (scroll_if_necessary_run s textview mark vadj) by done.
  fold distance. simpl. split; [|split].
  - destruct (distance <? 10)%float; split; try done.
    intros H. symmetry in H. by apply emit_neq in H.
  - intros H%float_leb_not_ltb. by rewrite H.
  - intros H. by rewrite H.
Qed.

Lemma scroll_if_necessary_near_bottom_witness :
  let near := chat_window (Adjustment 95 200 100) false in
  let far := chat_window (Adjustment 90 200 100) false in
  exec (scroll_if_necessary 5%N 7%N) near
    = emit (gtk_text_view_scroll_to_mark 5%N 7%N) near
  /\ exec (scroll_if_necessary 5%N 7%N) far = far.
Proof.
  intros near far. split.
  - apply (scroll_if_necessary_near_bottom near 5%N 7%N (Adjustment 95 200 100));
      try discriminate; reflexivity.
  - apply (scroll_if_necessary_near_bottom far 5%N 7%N (Adjustment 90 200 100));
      try discriminate; reflexivity.
Defined.

(** C7: [chatline_scroll_to_bottom] leaves the state as it is when
    [message_buffer] is NULL, and [scroll_if_necessary] issues no scroll
    request (it only logs the failed check) when the view or the mark is
    NULL, or the parent of the view is NULL or not a scrolled window. *)
Theorem scrolling_degenerate_input :
  (forall s, message_buffer s = None -> chatline_scroll_to_bottom s = (tt, s))
  /\ (forall s textview mark,
        textview = NULL \/ mark = NULL \/ parent_of s textview = NULL
        \/ vadjustment_of s (parent_of s textview) = None ->
        let s' := exec (scroll_if_necessary textview mark) s in
        s' = emit g_critical s /\ scroll_calls s' = scroll_calls s).
Proof.
  split.
  - intros s H. unfold chatline_scroll_to_bottom, bind, gets, ret. by rewrite H.
  - intros s textview mark H s'. subst s'. unfold exec.
    by rewrite scroll_if_necessary_guard.
Qed.

(** ** Appending to the output window *)

Lemma insert_text_end (b : text_buffer) (text : cstring) :
  buf_text (insert_text b (length (buf_text b)) text) = buf_text b ++ text.
Proof.
  unfold insert_text. simpl.
  rewrite take_ge, drop_ge by lia. by rewrite app_nil_r.
Qed.

Lemma get_end_iter_buffer (s : client) (b : text_buffer) :
  message_buffer s = Some b ->
  gtk_text_buffer_get_end_iter s = (length (buf_text b), s).
Proof. intros H. unfold gtk_text_buffer_get_end_iter. by rewrite H. Qed.

(** An insertion at the end iterator appends and leaves the iterator at
    the new end. *)
Lemma insert_at_end (s : client) (b : text_buffer) (text : cstring) :
  message_buffer s = Some b ->
  exists b',
    gtk_text_buffer_insert (length (buf_text b)) text s
    = (length (buf_text b'), set_message_buffer (Some b') s)
    /\ buf_text b' = buf_text b ++ text.
Proof.
  intros H. exists (insert_text b (length (buf_text b)) text).
  unfold gtk_text_buffer_insert. rewrite H. rewrite insert_text_end.
  split; [|done]. by rewrite length_app.
Qed.

Lemma scroll_if_necessary_cases (s : client) (textview mark : N) :
  scroll_if_necessary textview mark s = (tt, s)
  \/ exists e, scroll_if_necessary textview mark s = (tt, emit e s).
Proof.
  destruct (decide (textview = NULL)) as [|Htv].
  { right. eexists. apply scroll_if_necessary_guard. auto. }
  destruct (decide (mark = NULL)) as [|Hm].
  { right. eexists. apply scroll_if_necessary_guard. auto. }
  destruct (decide (parent_of s textview = NULL)) as [|Hsw].
  { right. eexists. apply scroll_if_necessary_guard. auto. }
  destruct (vadjustment_of s (parent_of s textview)) as [vadj|] eqn:Hv.
  - rewrite (scroll_if_necessary_run s textview mark vadj) by done.
    destruct (_ <? _)%float; eauto.
  - right. eexists. apply scroll_if_necessary_guard. auto.
Qed.

(** A scroll attempt guarded by a NULL test of the area changes nothing
    but the record of calls. *)
Lemma guarded_scroll_frame (s : client) (area mark : N) :
  exists s',
    when (negb (area =? NULL)%N) (scroll_if_necessary area mark) s = (tt, s')
    /\ message_buffer s' = message_buffer s
    /\ main_message_area s' = main_message_area s
    /\ start_message_area s' = start_message_area s.
Proof.
  unfold when. destruct (negb (area =? NULL)%N).
  - destruct (scroll_if_necessary_cases s area mark) as [E|[e E]];
      rewrite E; eauto.
  - unfold ret. eauto.
Qed.

(** The time stamp put in front of a message, if any. *)
Lemma real_append_output_window_text (s : client) (b : text_buffer)
  (astring : cstring) (conn_id : Z) (now_tm : tm) :
  message_buffer s = Some b ->
  exists b',
    message_buffer (exec (real_append_output_window astring conn_id now_tm) s)
    = Some b'
    /\ buf_text b' = buf_text b ++ [newline] ++ time_stamp s now_tm ++ astring.
Proof.
  intros Hb. unfold exec, real_append_output_window, time_stamp.
  remember (strftime 64 (list_ascii_of_string "[%H:%M:%S] ") now_tm)
    as stamp eqn:Hstamp.
  unfold bind at 1. rewrite (get_end_iter_buffer s b Hb).
  unfold bind at 1.
  destruct (insert_at_end s b [newline] Hb) as (b1 & -> & Hb1).
  unfold bind at 1. unfold gtk_text_buffer_create_mark at 1. simpl.
  set (mark := fresh _).
  set (b2 := TextBuffer (buf_text b1) _).
  set (s2 := set_message_buffer (Some b2) _).
  assert (message_buffer s2 = Some b2) as Hs2 by reflexivity.
  assert (buf_text b2 = buf_text b ++ [newline]) as Hb2 by done.
  unfold bind at 1. unfold gets at 1.
  change (show_chat_message_time s2) with (show_chat_message_time s).
  change (length (buf_text b1)) with (length (buf_text b2)).
  unfold bind at 1.
  assert (exists b3,
    (if show_chat_message_time s
     then gtk_text_buffer_insert (length (buf_text b2)) stamp
     else ret (length (buf_text b2))) s2
    = (length (buf_text b3), set_message_buffer (Some b3) s2)
    /\ buf_text b3 = buf_text b2
         ++ (if show_chat_message_time s then stamp else []))
    as (b3 & -> & Hb3).
  { destruct (show_chat_message_time s).
    - apply insert_at_end. done.
    - exists b2. unfold ret. rewrite app_nil_r. split; [|done].
      by destruct s. }
  unfold bind at 1.
  destruct (insert_at_end (set_message_buffer (Some b3) s2) b3 astring)
    as (b4 & -> & Hb4); [done|].
  set (s4 := set_message_buffer (Some b4) _).
  unfold bind at 1. unfold gets at 1. unfold bind at 1.
  destruct (guarded_scroll_frame s4 (main_message_area s4) mark)
    as (s5 & -> & Hm5 & _ & Hst5).
  unfold bind at 1. unfold gets at 1. unfold bind at 1.
  destruct (guarded_scroll_frame s5 (start_message_area s5) mark)
    as (s6 & -> & Hm6 & _ & _).
  unfold bind at 1. unfold gtk_text_buffer_delete_mark.
  rewrite Hm6, Hm5. simpl.
  eexists. split; [reflexivity|]. simpl.
  rewrite Hb4, Hb3, Hb2. by rewrite <- !app_assoc.
Qed.

Lemma decimal2_two_digits (n : nat) : (n < 100)%nat -> decimal2 n = two_digits n.
Proof.
  intros H. unfold decimal2. apply Nat.ltb_lt in H. by rewrite H.
Qed.

Lemma strftime_clock (t : tm) :
  valid_tm t ->
  strftime 64 (list_ascii_of_string "[%H:%M:%S] ") t = clock_stamp t.
Proof.
  intros (Hh & Hm & Hs). unfold strftime. simpl.
  unfold strftime_conversion. simpl.
  rewrite !decimal2_two_digits by lia. reflexivity.
Qed.

Lemma clock_stamp_length (t : tm) : length (clock_stamp t) = 11%nat.
Proof. reflexivity. Qed.

(** C3: on a client with a message buffer and a local time within range,
    the pattern [[%H:%M:%S] ] formats to the clock stamp, and the buffer
    ends in newline, stamp, message exactly when [show_chat_message_time]
    is set, and in newline, message exactly when it is not. *)
Theorem real_append_output_window_timestamp (s : client) (b : text_buffer)
  (astring : cstring) (conn_id : Z) (now_tm : tm) :
  message_buffer s = Some b ->
  valid_tm now_tm ->
  let s' := exec (real_append_output_window astring conn_id now_tm) s in
  strftime 64 (list_ascii_of_string "[%H:%M:%S] ") now_tm = clock_stamp now_tm
  /\ (show_chat_message_time s = true
      <-> output_text s'
          = buf_text b ++ [newline] ++ clock_stamp now_tm ++ astring)
  /\ (show_chat_message_time s = false
      <-> output_text s' = buf_text b ++ [newline] ++ astring).
Proof.
  intros Hb Hnow s'.
  destruct (real_append_output_window_text s b astring conn_id now_tm Hb)
    as (b' & Hs' & Htext).
  assert (output_text s' = buf_text b ++ [newline]
                           ++ time_stamp s now_tm ++ astring) as Hout.
  { unfold output_text. subst s'. by rewrite Hs'. }
  clearbody s'. rewrite Hout. unfold time_stamp.
  rewrite (strftime_clock now_tm Hnow).
  split; [done|].
  destruct (show_chat_message_time s); simpl; split; split; try done.
  - intros H. apply (f_equal length) in H.
    rewrite ?length_app in H. simpl in H.
    rewrite ?length_app, ?clock_stamp_length in H. lia.
  - intros H. apply (f_equal length) in H.
    rewrite ?length_app in H. simpl in H.
    rewrite ?length_app, ?clock_stamp_length in H. lia.
Qed.

Lemma real_append_output_window_timestamp_witness :
  let s := chat_window (Adjustment 95 200 100) true in
  let s' := exec (real_append_output_window
                    (list_ascii_of_string "Hello") 0 (Tm 7 5 59)) s in
  output_text s'
  = list_ascii_of_string "Welcome" ++ [newline]
    ++ list_ascii_of_string "[07:05:59] " ++ list_ascii_of_string "Hello".
Proof.
  intros s s'.
  apply (real_append_output_window_timestamp s
           (TextBuffer (list_ascii_of_string "Welcome") ∅)
           (list_ascii_of_string "Hello") 0 (Tm 7 5 59)).
  - reflexivity.
  - unfold valid_tm. simpl. lia.
  - reflexivity.
Defined.

(** C4: the buffer after the call is the buffer before it followed by a
    newline, the optional time stamp and the string; every character that
    was in the buffer is still at its position, and nothing follows the
    string. *)
Theorem real_append_output_window_appends (s : client) (b : text_buffer)
  (astring : cstring) (conn_id : Z) (now_tm : tm) :
  message_buffer s = Some b ->
  let s' := exec (real_append_output_window astring conn_id now_tm) s in
  output_text s' = buf_text b ++ [newline] ++ time_stamp s now_tm ++ astring
  /\ (forall i c, buf_text b !! i = Some c -> output_text s' !! i = Some c)
  /\ (exists front, output_text s' = front ++ astring).
Proof.
  intros Hb s'.
  destruct (real_append_output_window_text s b astring conn_id now_tm Hb)
    as (b' & Hs' & Htext).
  assert (output_text s' = buf_text b ++ [newline]
                           ++ time_stamp s now_tm ++ astring) as Hout.
  { unfold output_text. subst s'. by rewrite Hs'. }
  clearbody s'. rewrite Hout. split; [done|]. split.
  - intros i c Hi. by apply lookup_app_l_Some.
  - exists (buf_text b ++ [newline] ++ time_stamp s now_tm).
    by rewrite <- !app_assoc.
Qed.

Lemma real_append_output_window_appends_witness :
  let s := chat_window (Adjustment 90 200 100) false in
  let s' := exec (real_append_output_window
                    (list_ascii_of_string "Hello") 0 (Tm 23 59 60)) s in
  output_text s'
  = list_ascii_of_string "Welcome" ++ [newline] ++ list_ascii_of_string "Hello"
  /\ output_text s' !! 0%nat = Some "W"%char.
Proof.
  intros s s'.
  destruct (real_append_output_window_appends s
              (TextBuffer (list_ascii_of_string "Welcome") ∅)
              (list_ascii_of_string "Hello") 0 (Tm 23 59 60))
    as (Htext & Hkeep & _).
  - reflexivity.
  - split; [exact Htext | by apply Hkeep].
Defined.

(** ** The specenum tables *)

Section specenum_facts.

Import Specenum.

Lemma ltb_ascii_lt (a b : string) : String.ltb a b = true -> ascii_lt a b.
Proof.
  unfold String.ltb, ascii_lt. by destruct (String.compare a b).
Qed.

Lemma strictly_ascending_sorted (l : list string) :
  strictly_ascending l = true -> StronglySorted ascii_lt l.
Proof.
  induction l as [|a l IH]; simpl; [constructor|].
  intros [Ha Hl]%andb_true_iff. constructor; [auto|].
  apply List.Forall_forall. intros b Hb.
  apply ltb_ascii_lt. rewrite List.forallb_forall in Ha. auto.
Qed.

(** C6: [terrain_class] lists LAND "Land" and OCEAN "Oceanic", in that
    order and nothing else; [impr_flag_id] lists thirteen flags, the five
    named ones followed by USER_FLAG_1 to USER_FLAG_8. *)
Theorem specenum_tables_fixed :
  List.map key_value (values terrain_class)
  = [("LAND", Some "Land"); ("OCEAN", Some "Oceanic")]
  /\ identifiers impr_flag_id
     = ["VISIBLE_BY_OTHERS"; "SAVE_SMALL_WONDER"; "GOLD"; "DISASTER_PROOF";
        "INDESTRUCTIBLE"] ++ numbered "USER_FLAG_" 1 8
  /\ length (values impr_flag_id) = 13%nat.
Proof. repeat split; vm_compute; reflexivity. Qed.

(** C8: the blocks carrying [style identifiers sorted] are the four
    terrain blocks, and in each of them the identifiers of the values that
    have a name are in strictly ascending order of character codes; the
    values of [terrain_flag_id] without a name are the USER_ placeholders
    at its end. *)
Theorem sorted_style_blocks_ascending :
  List.map enum_name
    (List.filter (has_option style_identifiers_sorted) all_enums)
  = ["terrain_class"; "terrain_alteration"; "terrain_flag_id";
     "mapgen_terrain_property"]
  /\ (forall e, e ∈ all_enums ->
        has_option style_identifiers_sorted e = true ->
        StronglySorted ascii_lt (named_identifiers e))
  /\ identifiers terrain_flag_id
     = named_identifiers terrain_flag_id
       ++ numbered "USER_" 1 9 ++ ["USER_LAST"].
Proof.
  split; [by vm_compute|]. split; [|by vm_compute].
  intros e He Hopt. apply strictly_ascending_sorted.
  unfold all_enums, fc_types_def, terrain_def in He. simpl in He.
  repeat (apply elem_of_cons in He as [->|He]).
  - by vm_compute in Hopt.
  - by vm_compute.
  - by vm_compute.
  - by vm_compute.
  - by vm_compute.
  - by apply elem_of_nil in He.
Qed.

End specenum_facts.

(** ** The tex AI build glue *)

Section automake_facts.

Import Automake.

(** C9: whatever the configuration, one library list is in force and it
    holds one library: [libtexai.la] under [noinst_LTLIBRARIES] when
    AI_MOD_STATIC_TEX holds, [fc_ai_tex.la] under [aimodule_LTLIBRARIES]
    with LDFLAGS [-module] when it does not; the sources of either are the
    nine entries of [da_sources]. *)
Theorem tex_ai_library_target (cfg : configuration) :
  let defs := definitions cfg tex_Makefile_am in
  let static := cfg "AI_MOD_STATIC_TEX" in
  let target := if static then "libtexai.la" else "fc_ai_tex.la" in
  ltlibraries defs
  = [(if static then "noinst_LTLIBRARIES" else "aimodule_LTLIBRARIES",
      [target])]
  /\ words_of (target_variable target "SOURCES") defs = Some da_sources_list
  /\ words_of (target_variable target "LDFLAGS") defs
     = (if static then None else Some ["-module"])
  /\ words_of "da_sources" defs = Some da_sources_list
  /\ length da_sources_list = 9%nat.
Proof.
  intros defs static target. subst defs target.
  unfold definitions, tex_Makefile_am. simpl. fold static.
  destruct static; repeat split; vm_compute; reflexivity.
Qed.

End automake_facts.

(** ** The Mongol nation *)

Section ruleset_facts.

Import Ruleset.

Lemma prefix_occurs (sub s : string) :
  String.prefix sub s = true -> exists after, s = String.append sub after.
Proof.
  revert s. induction sub as [|a sub IH]; intros s; simpl.
  - by exists s.
  - destruct s as [|b s]; [done|]. simpl.
    destruct (ascii_dec a b) as [->|]; [|done].
    intros [after ->]%IH. by exists after.
Qed.

Lemma contains_occurs (sub s : string) :
  contains sub s = true -> occurs sub s.
Proof.
  induction s as [|c s IH]; cbn [contains].
  - rewrite orb_false_r. intros [after ->]%prefix_occurs.
    by exists EmptyString, after.
  - intros [H|H]%orb_true_iff.
    + apply prefix_occurs in H as [after ->]. by exists EmptyString, after.
    + destruct (IH H) as (before & after & ->).
      by exists (String c before), after.
Qed.

(** C10: the leaders table has fourteen rows and the sex of each is
    "Male" or "Female"; each row of the ruler titles table has a male and a
    female title, and "%s" occurs in both. *)
Theorem mongol_leaders_and_titles :
  exists leaders titles,
    table_of "leaders" nation_mongol = Some leaders
    /\ table_of "ruler_titles" nation_mongol = Some titles
    /\ length (rows leaders) = 14%nat
    /\ Forall (fun row =>
                 exists sex, cell leaders "sex" row = Some sex
                   /\ (entry_text sex = "Male" \/ entry_text sex = "Female"))
              (rows leaders)
    /\ Forall (fun row =>
                 exists male female,
                   cell titles "male_title" row = Some male
                   /\ cell titles "female_title" row = Some female
                   /\ occurs "%s" (entry_text male)
                   /\ occurs "%s" (entry_text female))
              (rows titles).
Proof.
  eexists. eexists. split; [reflexivity|]. split; [reflexivity|].
  split; [reflexivity|]. split.
  - repeat (constructor;
      [eexists; split; [reflexivity|]; (by left) || (by right)|]).
    constructor.
  - repeat (constructor;
      [eexists; eexists; split; [reflexivity|]; split; [reflexivity|];
       split; by apply contains_occurs|]).
    constructor.
Qed.

End ruleset_facts.

(** * Further properties of the chat line *)

(** ** What the history holds *)

Lemma take_app_take {A} (n : nat) (l k : list A) :
  take n (l ++ take n k) = take n (l ++ k).
Proof.
  rewrite !take_app, take_take. do 2 f_equal. lia.
Qed.

Section history_facts.

Variable MAX_CHATLINE_HISTORY : nat.
Variable malloc : gmap N cstring -> N.

Hypothesis malloc_fresh :
  forall h : gmap N cstring, malloc h ≠ NULL /\ h !! malloc h = None.

Local Abbreviation inputline_return :=
  (inputline_return MAX_CHATLINE_HISTORY malloc).
Local Abbreviation enter_lines :=
  (enter_lines MAX_CHATLINE_HISTORY malloc).

(** Reading the old pointers in a heap that gained a block elsewhere. *)
Lemma history_lines_insert (l : list N) (h : gmap N cstring) (p : N)
  (line : cstring) :
  p ∉ l ->
  List.map (fun q => <[p := line]> h !! q) l = List.map (fun q => h !! q) l.
Proof.
  intros Hp. apply List.map_ext_in. intros q Hq%list_elem_of_In.
  apply lookup_insert_ne. by intros ->.
Qed.

Lemma history_lines_delete (l : list N) (h : gmap N cstring) (p : N) :
  p ∉ l ->
  List.map (fun q => delete p h !! q) l = List.map (fun q => h !! q) l.
Proof.
  intros Hp. apply List.map_ext_in. intros q Hq%list_elem_of_In.
  apply lookup_delete_ne. by intros ->.
Qed.

(** One non-empty line: the history is the line followed by the old
    history, cut to the cap. *)
Lemma inputline_return_history_lines (s : client) (data : N) :
  (0 < MAX_CHATLINE_HISTORY)%nat ->
  history_ok s ->
  (length (history_list s) <= MAX_CHATLINE_HISTORY)%nat ->
  inputline s ≠ [] ->
  history_lines (exec (inputline_return data) s)
  = take MAX_CHATLINE_HISTORY (Some (inputline s) :: history_lines s).
Proof.
  intros Hpos (Hnd & Hnull & Hlive) Hlen Hne. unfold exec, history_lines.
  destruct (Nat.le_gt_cases MAX_CHATLINE_HISTORY (length (history_list s)))
    as [Hfull|Hroom].
  - rewrite inputline_return_full by done. simpl.
    destruct (list_nil_or_snoc (history_list s)) as [E|(init & oldest & E)].
    { rewrite E in Hfull. simpl in Hfull. lia. }
    unfold heap_after_cap. rewrite E in *.
    rewrite genlist_get_last.
    pose proof (NoDup_snoc_inv _ _ Hnd) as Hold.
    rewrite genlist_unlink_last by done.
    assert (oldest ≠ NULL) as Hold0.
    { intros ->. apply Hnull, elem_of_app. right.
      by apply list_elem_of_singleton. }
    destruct (N.eqb_spec oldest NULL); [done|].
    set (h := delete oldest (heap s)).
    destruct (malloc_fresh h) as [_ Hfree].
    rewrite lookup_insert_eq.
    assert (malloc h ∉ init) as Hp.
    { intros Hin.
      assert (is_Some (h !! malloc h)) as [x Hx].
      { assert (oldest ≠ malloc h) as Hneq.
        { intros E'. apply Hold. by rewrite E'. }
        change (h !! malloc h) with (delete oldest (heap s) !! malloc h).
        rewrite lookup_delete_ne by done.
        apply Hlive, elem_of_app. auto. }
      congruence. }
    rewrite history_lines_insert by done.
    unfold h. rewrite history_lines_delete by done.
    rewrite length_app in Hlen, Hfull. simpl in Hlen, Hfull.
    assert (MAX_CHATLINE_HISTORY = S (length init)) as -> by lia.
    simpl. f_equal. rewrite List.map_app.
    rewrite take_app_le by (by rewrite List.length_map).
    rewrite take_ge by (by rewrite List.length_map). done.
  - rewrite inputline_return_room by done. simpl.
    destruct (malloc_fresh (heap s)) as [_ Hfree].
    rewrite lookup_insert_eq.
    assert (malloc (heap s) ∉ history_list s) as Hp.
    { intros [x Hx]%Hlive. congruence. }
    rewrite history_lines_insert by done.
    destruct MAX_CHATLINE_HISTORY as [|m]; [lia|]. simpl. f_equal.
    rewrite take_ge; [done|]. rewrite List.length_map. lia.
Qed.

(** X1: from a well-formed history within a positive cap, after any
    lines are entered the history holds the non-empty ones, newest first,
    in front of the old entries, cut to the cap. *)
Theorem enter_lines_history_lines (lines : list cstring) (s : client) :
  (0 < MAX_CHATLINE_HISTORY)%nat ->
  history_ok s ->
  (length (history_list s) <= MAX_CHATLINE_HISTORY)%nat ->
  history_lines (enter_lines lines s)
  = take MAX_CHATLINE_HISTORY
      (List.rev (List.map Some (typed lines)) ++ history_lines s).
Proof.
  intros Hpos. revert s.
  induction lines as [|line rest IH]; intros s Hok Hlen; simpl.
  - symmetry. apply take_ge. unfold history_lines.
    by rewrite List.length_map.
  - set (s0 := set_inputline line s).
    assert (history_ok s0) as Hok0 by done.
    rewrite IH.
    + destruct line as [|c line]; simpl.
      * unfold exec. by rewrite inputline_return_empty.
      * rewrite inputline_return_history_lines by done.
        change (history_lines s0) with (history_lines s).
        change (inputline s0) with (c :: line).
        rewrite take_app_take. by rewrite <- app_assoc.
    + by apply inputline_return_history_ok.
    + by apply inputline_return_length.
Qed.

(** X2: when the heap holds exactly the blocks the history points to, it
    still does after any lines are entered: the block of a dropped entry
    is released and nothing else is. *)
Theorem enter_lines_heap_exact (lines : list cstring) (s : client) :
  history_ok s ->
  dom (heap s) = list_to_set (history_list s) ->
  let s' := enter_lines lines s in
  dom (heap s') = list_to_set (history_list s').
Proof.
  revert s. induction lines as [|line rest IH]; intros s Hok Hdom; simpl;
    [done|].
  set (s0 := set_inputline line s).
  assert (history_ok s0) as Hok0 by done.
  apply IH; [by apply inputline_return_history_ok|].
  unfold exec. destruct line as [|c line].
  { by rewrite inputline_return_empty. }
  assert (inputline s0 ≠ []) as Hne by done.
  destruct Hok as (Hnd & Hnull & Hlive).
  destruct (Nat.le_gt_cases MAX_CHATLINE_HISTORY (length (history_list s0)))
    as [Hfull|Hroom].
  - rewrite inputline_return_full by done. simpl.
    change (history_list s0) with (history_list s).
    unfold heap_after_cap.
    change (history_list s0) with (history_list s).
    change (heap s0) with (heap s).
    destruct (list_nil_or_snoc (history_list s)) as [E|(init & oldest & E)].
    + rewrite E. simpl. rewrite dom_insert_L, Hdom, E. done.
    + rewrite E in *. rewrite genlist_get_last.
      pose proof (NoDup_snoc_inv _ _ Hnd) as Hold.
      rewrite genlist_unlink_last by done.
      assert (oldest ≠ NULL) as Hold0.
      { intros ->. apply Hnull, elem_of_app. right.
        by apply list_elem_of_singleton. }
      destruct (N.eqb_spec oldest NULL); [done|].
      rewrite dom_insert_L, dom_delete_L, Hdom.
      rewrite list_to_set_app_L. simpl.
      assert (oldest ∉ (list_to_set init : gset N)) as Hnotin
        by (by rewrite elem_of_list_to_set).
      f_equal. apply set_eq. intros q.
      rewrite elem_of_difference, !elem_of_union, !elem_of_singleton,
        elem_of_empty.
      split.
      * intros [[Hq|[Hq|[]]] Hq0]; [done|]. by destruct Hq0.
      * intros Hq. split; [by left|]. by intros ->.
  - rewrite inputline_return_room by done. simpl.
    by rewrite dom_insert_L, Hdom.
Qed.

(** X18: from a well-formed history within a positive cap, any lines
    entered leave the history well-formed (its pointers distinct, not NULL
    and each a live block, so no entry dangles) and within the cap. *)
Theorem enter_lines_keeps_history (lines : list cstring) (s : client) :
  (0 < MAX_CHATLINE_HISTORY)%nat ->
  history_ok s ->
  (length (history_list s) <= MAX_CHATLINE_HISTORY)%nat ->
  let s' := enter_lines lines s in
  history_ok s' /\ (length (history_list s') <= MAX_CHATLINE_HISTORY)%nat.
Proof.
  intros Hpos. revert s.
  induction lines as [|line rest IH]; intros s Hok Hlen; [by split|].
  simpl. apply IH.
  - by apply inputline_return_history_ok.
  - by apply inputline_return_length.
Qed.

End history_facts.

(** X3: the chat messages sent while lines are entered are the non-empty
    lines, each once and in the order typed, and the history position is
    -1 as soon as one of them was sent and untouched otherwise; this needs
    no assumption on the history, the cap or the allocator. *)
Theorem enter_lines_sent_messages (MAX_CHATLINE_HISTORY : nat)
  (malloc : gmap N cstring -> N) (lines : list cstring) (s : client) :
  let s' := enter_lines MAX_CHATLINE_HISTORY malloc lines s in
  sent_messages s' = List.rev (typed lines) ++ sent_messages s
  /\ history_pos s'
     = match typed lines with
       | [] => history_pos s
       | _ :: _ => (-1)%Z
       end.
Proof.
  revert s. induction lines as [|line rest IH]; intros s; [done|].
  cbn zeta in *. cbn [enter_lines].
  set (s0 := set_inputline line s).
  destruct (IH (exec (inputline_return MAX_CHATLINE_HISTORY malloc NULL) s0))
    as [IHsent IHpos].
  rewrite IHsent, IHpos. clear IH IHsent IHpos.
  unfold exec. destruct line as [|c line].
  { by rewrite inputline_return_empty. }
  assert (inputline s0 ≠ []) as Hne by done.
  change (typed ((c :: line) :: rest)) with ((c :: line) :: typed rest).
  simpl List.rev. rewrite <- app_assoc.
  destruct (Nat.le_gt_cases MAX_CHATLINE_HISTORY (length (history_list s0))).
  - rewrite inputline_return_full by done. simpl.
    split; [done|]. by destruct (typed rest).
  - rewrite inputline_return_room by done. simpl.
    split; [done|]. by destruct (typed rest).
Qed.

Lemma no_history_ok : history_ok no_history.
Proof.
  split; [constructor|]. split.
  - intros H. by apply elem_of_nil in H.
  - intros p H. by apply elem_of_nil in H.
Qed.

Lemma enter_lines_history_lines_witness :
  history_lines
    (enter_lines 2 next_block
       [list_ascii_of_string "one"; []; list_ascii_of_string "two";
        list_ascii_of_string "three"] no_history)
  = [Some (list_ascii_of_string "three"); Some (list_ascii_of_string "two")].
Proof.
  apply (enter_lines_history_lines 2 next_block next_block_fresh
           [list_ascii_of_string "one"; []; list_ascii_of_string "two";
            list_ascii_of_string "three"] no_history).
  - lia.
  - exact no_history_ok.
  - simpl. lia.
Defined.

Lemma enter_lines_heap_exact_witness :
  let s' := enter_lines 2 next_block
              [list_ascii_of_string "one"; list_ascii_of_string "two";
               list_ascii_of_string "three"] no_history in
  dom (heap s') = list_to_set (history_list s').
Proof.
  apply (enter_lines_heap_exact 2 next_block next_block_fresh
           [list_ascii_of_string "one"; list_ascii_of_string "two";
            list_ascii_of_string "three"] no_history).
  - exact no_history_ok.
  - reflexivity.
Defined.

Lemma enter_lines_keeps_history_witness :
  let s' := enter_lines 2 next_block
              [list_ascii_of_string "one"; list_ascii_of_string "two";
               list_ascii_of_string "three"] no_history in
  history_ok s' /\ (length (history_list s') <= 2)%nat.
Proof.
  apply (enter_lines_keeps_history 2 next_block next_block_fresh
           [list_ascii_of_string "one"; list_ascii_of_string "two";
            list_ascii_of_string "three"] no_history).
  - lia.
  - exact no_history_ok.
  - simpl. lia.
Defined.

(** ** What the output window routines leave alone *)

Lemma grows_refl (s : client) : grows s s.
Proof. split; [by repeat split|]. by exists []. Qed.

Lemma grows_trans (s1 s2 s3 : client) :
  grows s1 s2 -> grows s2 s3 -> grows s1 s3.
Proof.
  intros [H1 [e1 T1]] [H2 [e2 T2]]. split.
  - unfold same_globals in *.
    destruct H1 as (?&?&?&?&?&?&?&?), H2 as (?&?&?&?&?&?&?&?).
    repeat split; congruence.
  - exists (e2 ++ e1). rewrite T2, T1. by rewrite app_assoc.
Qed.

Lemma grows_emit (e : event) (s : client) : grows s (emit e s).
Proof. split; [by repeat split|]. by exists [e]. Qed.

Lemma grows_set_message_buffer (b : option text_buffer) (s : client) :
  grows s (set_message_buffer b s).
Proof. split; [by repeat split|]. by exists []. Qed.

Lemma growing_bind {A B} (m : M A) (k : A -> M B) :
  growing m -> (forall a, growing (k a)) -> growing (bind m k).
Proof.
  intros Hm Hk s. unfold bind. specialize (Hm s).
  destruct (m s) as [a s1]. eapply grows_trans; [exact Hm|apply Hk].
Qed.

Lemma growing_ret {A} (a : A) : growing (ret a).
Proof. intros s. apply grows_refl. Qed.

Lemma growing_gets {A} (f : client -> A) : growing (gets f).
Proof. intros s. apply grows_refl. Qed.

Lemma growing_emit (e : event) : growing (modify (emit e)).
Proof. intros s. apply grows_emit. Qed.

Lemma growing_when (c : bool) (m : M unit) : growing m -> growing (when c m).
Proof. destruct c; [done|]. intros _. apply growing_ret. Qed.

Lemma growing_get_end_iter : growing gtk_text_buffer_get_end_iter.
Proof.
  intros s. unfold gtk_text_buffer_get_end_iter.
  destruct (message_buffer s); [apply grows_refl|apply grows_emit].
Qed.

Lemma growing_insert (iter : nat) (text : cstring) :
  growing (gtk_text_buffer_insert iter text).
Proof.
  intros s. unfold gtk_text_buffer_insert.
  destruct (message_buffer s);
    [apply grows_set_message_buffer|apply grows_emit].
Qed.

Lemma growing_create_mark (iter : nat) (g : bool) :
  growing (gtk_text_buffer_create_mark iter g).
Proof.
  intros s. unfold gtk_text_buffer_create_mark.
  destruct (message_buffer s);
    [apply grows_set_message_buffer|apply grows_emit].
Qed.

Lemma growing_delete_mark (mark : N) :
  growing (gtk_text_buffer_delete_mark mark).
Proof.
  intros s. unfold gtk_text_buffer_delete_mark.
  destruct (message_buffer s);
    [apply grows_set_message_buffer|apply grows_emit].
Qed.

Lemma growing_scroll_if_necessary (textview mark : N) :
  growing (scroll_if_necessary textview mark).
Proof.
  intros s.
  destruct (scroll_if_necessary_cases s textview mark) as [E|[e E]];
    rewrite E; [apply grows_refl|apply grows_emit].
Qed.

Create HintDb growing.
#[local] Hint Resolve growing_ret growing_gets growing_emit growing_when
  growing_get_end_iter growing_insert growing_create_mark
  growing_delete_mark growing_scroll_if_necessary : growing.

Ltac growing_tac :=
  repeat first
    [ apply growing_bind; [|intros ?]
    | match goal with |- growing (if ?c then _ else _) => destruct c end
    | solve [auto with growing] ].

Lemma growing_append_text (astring : cstring) (now_tm : tm) :
  growing (append_text astring now_tm).
Proof. unfold append_text. growing_tac. Qed.


Lemma bind_assoc {A B C} (m : M A) (k : A -> M B) (k' : B -> M C)
  (s : client) :
  bind (bind m k) k' s = bind m (fun a => bind (k a) k') s.
Proof. unfold bind. by destruct (m s). Qed.

Lemma bind_ext {A B} (m : M A) (k k' : A -> M B) (s : client) :
  (forall a s', k a s' = k' a s') -> bind m k s = bind m k' s.
Proof. intros H. unfold bind. by destruct (m s). Qed.

(** The two parts make up the function. *)
Lemma real_append_output_window_split (astring : cstring) (conn_id : Z)
  (now_tm : tm) (s : client) :
  real_append_output_window astring conn_id now_tm s
  = bind (append_text astring now_tm) (show_appended astring) s.
Proof.
  unfold real_append_output_window, append_text.
  do 6 (rewrite bind_assoc; apply bind_ext; intros ? ?).
  reflexivity.
Qed.

(** X6: whatever the state, even without a buffer,
    [real_append_output_window] writes neither the history, the heap, the
    entry, the widgets nor the settings, takes nothing off the record of
    calls, and its last call hands the string to the status bar. *)
Theorem real_append_output_window_frame (astring : cstring) (conn_id : Z)
  (now_tm : tm) (s : client) :
  let s' := exec (real_append_output_window astring conn_id now_tm) s in
  same_globals s s'
  /\ exists evs,
       trace s' = append_network_statusbar astring false :: evs ++ trace s.
Proof.
  intros s'. subst s'. unfold exec.
  rewrite real_append_output_window_split. unfold bind.
  pose proof (growing_append_text astring now_tm s) as H1.
  destruct (append_text astring now_tm s) as [mark s1]. simpl in H1.
  unfold show_appended.
  set (m := (main <- gets main_message_area;;
             when (negb (main =? NULL)%N) (scroll_if_necessary main mark);;;
             start <- gets start_message_area;;
             when (negb (start =? NULL)%N) (scroll_if_necessary start mark);;;
             gtk_text_buffer_delete_mark mark)).
  assert (growing m) as Hm by (unfold m; growing_tac).
  assert (forall s0,
    (main <- gets main_message_area;;
     when (negb (main =? NULL)%N) (scroll_if_necessary main mark);;;
     start <- gets start_message_area;;
     when (negb (start =? NULL)%N) (scroll_if_necessary start mark);;;
     gtk_text_buffer_delete_mark mark;;;
     modify (emit (append_network_statusbar astring false))) s0
    = (tt, emit (append_network_statusbar astring false) (snd (m s0))))
    as Hlast.
  { intros s0. unfold m, bind, gets, modify, when.
    repeat match goal with
           | |- context [let (_, _) := ?x in _] => destruct x
           end. reflexivity. }
  rewrite Hlast. simpl.
  pose proof (grows_trans _ _ _ H1 (Hm s1)) as [Hg [evs Ht]].
  split.
  - unfold same_globals in *. by destruct Hg as (?&?&?&?&?&?&?&?).
  - exists evs. by rewrite Ht.
Qed.

(** ** Marks across an append *)

Lemma shift_mark_at_end (n len : nat) (m : text_mark) :
  (mark_offset m <= n)%nat ->
  shift_mark n len m = mark_after_append n len m.
Proof.
  intros H. unfold shift_mark, mark_after_append. destruct m as [o g].
  simpl in *. destruct (Nat.ltb_spec n o); [lia|]. simpl.
  rewrite (Nat.eqb_sym n o).
  destruct (Nat.eqb_spec o n) as [->|]; destruct g; simpl; done.
Qed.

Lemma shift_mark_after_append (n len1 len2 : nat) (m : text_mark) :
  (mark_offset m <= n)%nat ->
  shift_mark (n + len1) len2 (mark_after_append n len1 m)
  = mark_after_append n (len1 + len2) m.
Proof.
  intros H. unfold shift_mark, mark_after_append. destruct m as [o g].
  simpl in *.
  destruct (Nat.eqb_spec o n) as [->|Hne]; destruct g; simpl.
  - destruct (Nat.ltb_spec (n + len1) n); [lia|]. simpl.
    by rewrite andb_false_r.
  - destruct (Nat.ltb_spec (n + len1) (n + len1)); [lia|]. simpl.
    rewrite Nat.eqb_refl. simpl. f_equal. lia.
  - destruct (Nat.ltb_spec (n + len1) o); [lia|]. simpl.
    by rewrite andb_false_r.
  - destruct (Nat.ltb_spec (n + len1) o); [lia|]. simpl.
    destruct (Nat.eqb_spec (n + len1) o); [lia|]. done.
Qed.

(** The mark made for scrolling keeps its place while the stamp and the
    string go in behind it. *)
Lemma shift_mark_left_gravity (iter len offset : nat) :
  (offset <= iter)%nat ->
  shift_mark iter len (TextMark offset true) = TextMark offset true.
Proof.
  intros H. unfold shift_mark. simpl.
  destruct (Nat.ltb_spec iter offset); [lia|]. simpl.
  by rewrite andb_false_r.
Qed.

(** The buffer [append_text] leaves, for a given old buffer. *)
Lemma append_text_run (s : client) (b : text_buffer) (astring : cstring)
  (now_tm : tm) :
  message_buffer s = Some b ->
  let n := length (buf_text b) in
  let stamp := time_stamp s now_tm in
  let mark := fresh ({[NULL]} ∪ dom (buf_marks b)) in
  exists marks,
    append_text astring now_tm s
    = (mark, set_message_buffer
               (Some (TextBuffer (buf_text b ++ [newline] ++ stamp ++ astring)
                                 marks)) s)
    /\ marks !! mark = Some (TextMark (n + 1) true)
    /\ dom marks = {[mark]} ∪ dom (buf_marks b)
    /\ (forall k m, buf_marks b !! k = Some m -> (mark_offset m <= n)%nat ->
          marks !! k
          = Some (mark_after_append n
                    (1 + length stamp + length astring) m)).
Proof.
  intros Hb n stamp mark.
  assert (dom (shift_mark n 1 <$> buf_marks b) = dom (buf_marks b)) as Hdom
    by apply dom_fmap_L.
  unfold append_text.
  unfold bind at 1. rewrite (get_end_iter_buffer s b Hb).
  unfold bind at 1. unfold gtk_text_buffer_insert at 1. rewrite Hb.
  unfold bind at 1. unfold gtk_text_buffer_create_mark at 1.
  cbn [message_buffer set_message_buffer insert_text buf_marks buf_text].
  change (length [newline]) with 1%nat. fold n.
  rewrite Hdom. fold mark.
  rewrite take_ge, drop_ge by (unfold n; lia). rewrite app_nil_r.
  unfold bind at 1. unfold gets at 1.
  cbn [show_chat_message_time set_message_buffer].
  subst stamp. unfold time_stamp.
  remember (strftime 64 (list_ascii_of_string "[%H:%M:%S] ") now_tm)
    as formatted.
  assert (length (buf_text b ++ [newline]) = (n + 1)%nat) as Hlen1
    by (rewrite length_app; reflexivity).
  assert (mark ∉ dom (buf_marks b)) as Hfresh.
  { pose proof (is_fresh ({[NULL]} ∪ dom (buf_marks b))) as Hf.
    fold mark in Hf. intros Hin. apply Hf. apply elem_of_union. by right. }
  apply not_elem_of_dom in Hfresh.
  destruct (show_chat_message_time s).
  - unfold bind, gtk_text_buffer_insert, ret.
    cbn [message_buffer set_message_buffer].
    unfold insert_text, set_message_buffer.
    cbn [message_buffer history_list history_pos heap inputline
         main_message_area start_message_area show_chat_message_time
         widgets trace buf_text buf_marks].
    rewrite (take_ge _ (n + 1)), (drop_ge _ (n + 1)) by lia.
    rewrite app_nil_r.
    rewrite (take_ge _ (n + 1 + length formatted)),
      (drop_ge _ (n + 1 + length formatted))
      by (rewrite length_app; lia).
    rewrite app_nil_r.
    eexists. split.
    { f_equal. f_equal. f_equal. f_equal.
      by rewrite <- !app_assoc. }
    split; [|split].
    + rewrite !lookup_fmap, lookup_insert_eq. simpl.
      rewrite !shift_mark_left_gravity by lia. done.
    + by rewrite !dom_fmap_L, dom_insert_L, dom_fmap_L.
    + intros k m Hm Ho.
      assert (k ≠ mark) as Hk by (intros ->; congruence).
      rewrite !lookup_fmap, lookup_insert_ne by (by apply not_eq_sym).
      rewrite lookup_fmap, Hm. simpl. f_equal.
      rewrite (shift_mark_at_end n 1 m) by done.
      rewrite (shift_mark_after_append n 1 (length formatted) m) by done.
      replace (n + 1 + length formatted)%nat
        with (n + (1 + length formatted))%nat by lia.
      by rewrite shift_mark_after_append.
  - unfold bind, gtk_text_buffer_insert, ret.
    cbn [message_buffer set_message_buffer].
    unfold insert_text, set_message_buffer.
    cbn [message_buffer history_list history_pos heap inputline
         main_message_area start_message_area show_chat_message_time
         widgets trace buf_text buf_marks].
    rewrite (take_ge _ (n + 1)), (drop_ge _ (n + 1)) by lia.
    rewrite app_nil_r.
    eexists. split.
    { f_equal. f_equal. f_equal. f_equal.
      by rewrite <- !app_assoc. }
    split; [|split].
    + rewrite !lookup_fmap, lookup_insert_eq. simpl.
      rewrite !shift_mark_left_gravity by lia. done.
    + by rewrite !dom_fmap_L, dom_insert_L, dom_fmap_L.
    + intros k m Hm Ho.
      assert (k ≠ mark) as Hk by (intros ->; congruence).
      rewrite !lookup_fmap, lookup_insert_ne by (by apply not_eq_sym).
      rewrite lookup_fmap, Hm. simpl. f_equal.
      rewrite (shift_mark_at_end n 1 m) by done.
      by rewrite shift_mark_after_append.
Qed.

Lemma show_appended_buffer (s : client) (b : text_buffer)
  (astring : cstring) (mark : N) :
  message_buffer s = Some b ->
  message_buffer (exec (show_appended astring mark) s)
  = Some (TextBuffer (buf_text b) (delete mark (buf_marks b))).
Proof.
  intros Hb. unfold exec, show_appended.
  unfold bind at 1. unfold gets at 1. unfold bind at 1.
  destruct (guarded_scroll_frame s (main_message_area s) mark)
    as (s1 & -> & Hm1 & _ & Hst1).
  unfold bind at 1. unfold gets at 1. unfold bind at 1.
  destruct (guarded_scroll_frame s1 (start_message_area s1) mark)
    as (s2 & -> & Hm2 & _ & _).
  unfold bind at 1. unfold gtk_text_buffer_delete_mark.
  rewrite Hm2, Hm1, Hb. reflexivity.
Qed.

Lemma fresh_mark_not_null (marks : gmap N text_mark) :
  fresh ({[NULL]} ∪ dom marks) ≠ NULL
  /\ marks !! fresh ({[NULL]} ∪ dom marks) = None.
Proof.
  pose proof (is_fresh ({[NULL]} ∪ dom marks)) as Hf. split.
  - intros E. apply Hf. rewrite E. apply elem_of_union. left.
    by apply elem_of_singleton.
  - apply not_elem_of_dom. intros Hin. apply Hf. apply elem_of_union.
    by right.
Qed.

(** X4: an append keeps the marks of the buffer: the same marks exist
    afterwards (the scroll mark is gone again), a mark with right gravity
    at the old end, such as the insertion cursor, is at the new end, and
    every other mark within the old text is where it was. *)
Theorem real_append_output_window_marks (s : client) (b : text_buffer)
  (astring : cstring) (conn_id : Z) (now_tm : tm) :
  message_buffer s = Some b ->
  let s' := exec (real_append_output_window astring conn_id now_tm) s in
  let n := length (buf_text b) in
  let len := (1 + length (time_stamp s now_tm) + length astring)%nat in
  dom (output_marks s') = dom (buf_marks b)
  /\ forall k m,
       buf_marks b !! k = Some m -> (mark_offset m <= n)%nat ->
       output_marks s' !! k = Some (mark_after_append n len m).
Proof.
  intros Hb s' n len. subst s'. unfold exec, output_marks.
  rewrite real_append_output_window_split. unfold bind.
  destruct (append_text_run s b astring now_tm Hb)
    as (marks & -> & Hmark & Hdom & Hkeep).
  destruct (fresh_mark_not_null (buf_marks b)) as [_ Hfresh].
  set (mark := fresh ({[NULL]} ∪ dom (buf_marks b))) in *.
  change (snd (show_appended astring mark ?x))
    with (exec (show_appended astring mark) x).
  erewrite show_appended_buffer by reflexivity. simpl. split.
  - rewrite dom_delete_L, Hdom. apply not_elem_of_dom in Hfresh.
    apply set_eq. intros k.
    rewrite elem_of_difference, elem_of_union, elem_of_singleton.
    split; [intros [[->|?] ?]; done|].
    intros Hk. split; [by right|]. by intros ->.
  - intros k m Hm Ho.
    rewrite lookup_delete_ne by (intros <-; congruence).
    by apply Hkeep.
Qed.

Lemma real_append_output_window_marks_witness :
  let s' := exec (real_append_output_window
                    (list_ascii_of_string "Hello") 0 (Tm 7 5 59))
                 marked_window in
  output_marks s' !! 1%N = Some (TextMark 24 false)
  /\ output_marks s' !! 2%N = Some (TextMark 3 true).
Proof.
  intros s'.
  destruct (real_append_output_window_marks marked_window
              (TextBuffer (list_ascii_of_string "Welcome")
                 (<[1%N := TextMark 7 false]>
                    (<[2%N := TextMark 3 true]> ∅)))
              (list_ascii_of_string "Hello") 0 (Tm 7 5 59))
    as [_ Hkeep]; [reflexivity|].
  split.
  - apply (Hkeep 1%N (TextMark 7 false)); [reflexivity|simpl; lia].
  - apply (Hkeep 2%N (TextMark 3 true)); [reflexivity|simpl; lia].
Defined.

(** X5: the mark handed to the scroll attempts is not NULL and sits right
    behind the inserted newline, on the first character of the appended
    line, although the stamp and the string were inserted after it was
    made; the rest of the function runs from that state. *)
Theorem append_text_scroll_target (s : client) (b : text_buffer)
  (astring : cstring) (conn_id : Z) (now_tm : tm) :
  message_buffer s = Some b ->
  let mark := fst (append_text astring now_tm s) in
  let s1 := snd (append_text astring now_tm s) in
  let n := length (buf_text b) in
  mark ≠ NULL
  /\ output_marks s1 !! mark = Some (TextMark (n + 1) true)
  /\ output_text s1 !! n = Some newline
  /\ output_text s1
     = buf_text b ++ [newline] ++ time_stamp s now_tm ++ astring
  /\ real_append_output_window astring conn_id now_tm s
     = show_appended astring mark s1.
Proof.
  intros Hb mark s1 n. subst mark s1.
  rewrite real_append_output_window_split. unfold bind.
  destruct (append_text_run s b astring now_tm Hb)
    as (marks & -> & Hmark & _ & _).
  destruct (fresh_mark_not_null (buf_marks b)) as [Hnull _].
  simpl. unfold output_marks, output_text. simpl.
  repeat split; try done.
  rewrite lookup_app_r by done. fold n. by rewrite Nat.sub_diag.
Qed.

Lemma append_text_scroll_target_witness :
  let r := append_text (list_ascii_of_string "Hello") (Tm 7 5 59)
             marked_window in
  output_marks (snd r) !! fst r = Some (TextMark 8 true)
  /\ output_text (snd r) !! 7%nat = Some newline.
Proof.
  intros r.
  destruct (append_text_scroll_target marked_window
              (TextBuffer (list_ascii_of_string "Welcome")
                 (<[1%N := TextMark 7 false]>
                    (<[2%N := TextMark 3 true]> ∅)))
              (list_ascii_of_string "Hello") 0 (Tm 7 5 59))
    as (_ & Hmark & Hnl & _); [reflexivity|].
  split; [exact Hmark|exact Hnl].
Defined.

Lemma parent_of_widgets (s s' : client) (w : N) :
  widgets s' = widgets s -> parent_of s' w = parent_of s w.
Proof.
  intros H. unfold parent_of, gtk_widget_get_parent. rewrite H.
  by destruct (widgets s !! w).
Qed.

Lemma vadjustment_of_widgets (s s' : client) (sw : N) :
  widgets s' = widgets s -> vadjustment_of s' sw = vadjustment_of s sw.
Proof.
  intros H. unfold vadjustment_of, gtk_scrolled_window_get_vadjustment.
  rewrite H. by destruct (widgets s !! sw) as [[[] ?]|].
Qed.

(** X7: with a buffer, a main message area that sits in a scrolled window
    and no start page area, an append asks for exactly one scroll of the
    main area when the window was within 10.0 of its bottom and for none
    otherwise; the status bar call follows. *)
Theorem real_append_output_window_scrolls (s : client) (b : text_buffer)
  (vadj : adjustment) (astring : cstring) (conn_id : Z) (now_tm : tm) :
  message_buffer s = Some b ->
  main_message_area s ≠ NULL ->
  start_message_area s = NULL ->
  parent_of s (main_message_area s) ≠ NULL ->
  vadjustment_of s (parent_of s (main_message_area s)) = Some vadj ->
  let s' := exec (real_append_output_window astring conn_id now_tm) s in
  let near :=
    (adj_upper vadj - adj_page_size vadj - adj_value vadj <? 10)%float in
  exists mark,
    mark ≠ NULL
    /\ trace s'
       = append_network_statusbar astring false
         :: (if near
             then [gtk_text_view_scroll_to_mark (main_message_area s) mark]
             else [])
         ++ trace s.
Proof.
  intros Hb Hmain Hstart Hsw Hvadj s' near. subst s'. unfold exec.
  rewrite real_append_output_window_split. unfold bind.
  destruct (append_text_run s b astring now_tm Hb)
    as (marks & -> & _ & _ & _).
  destruct (fresh_mark_not_null (buf_marks b)) as [Hnull _].
  set (mark := fresh ({[NULL]} ∪ dom (buf_marks b))) in *.
  exists mark. split; [done|].
  set (s1 := set_message_buffer _ s).
  unfold show_appended.
  unfold bind at 1. unfold gets at 1. unfold bind at 1.
  change (main_message_area s1) with (main_message_area s).
  destruct (N.eqb_spec (main_message_area s) NULL) as [|_]; [done|].
  unfold when at 1. cbn [negb].
  assert (widgets s1 = widgets s) as Hw by reflexivity.
  rewrite (scroll_if_necessary_run s1 (main_message_area s) mark vadj)
    by (rewrite ?(parent_of_widgets s s1), ?(vadjustment_of_widgets s s1);
        done).
  fold near.
  unfold bind at 1. unfold gets at 1. unfold bind at 1.
  assert (forall s2, start_message_area s2 = NULL ->
            when (negb (start_message_area s2 =? NULL)%N)
              (scroll_if_necessary (start_message_area s2) mark) s2
            = (tt, s2)) as Hskip.
  { intros s2 ->. reflexivity. }
  rewrite Hskip by (by destruct near).
  unfold bind, gtk_text_buffer_delete_mark, modify.
  destruct near; reflexivity.
Qed.

Lemma real_append_output_window_scrolls_witness :
  let s := chat_window (Adjustment 95 200 100) false in
  let s' := exec (real_append_output_window
                    (list_ascii_of_string "Hello") 0 (Tm 7 5 59)) s in
  exists mark,
    mark ≠ NULL
    /\ trace s'
       = [append_network_statusbar (list_ascii_of_string "Hello") false;
          gtk_text_view_scroll_to_mark 5%N mark].
Proof.
  intros s s'.
  apply (real_append_output_window_scrolls s
           (TextBuffer (list_ascii_of_string "Welcome") ∅)
           (Adjustment 95 200 100)
           (list_ascii_of_string "Hello") 0 (Tm 7 5 59));
    try reflexivity; discriminate.
Defined.

(** ** Scrolling to the bottom *)

(** X8: [chatline_scroll_to_bottom] never edits the buffer or any global;
    with a buffer it asks, whatever the scroll position, for one scroll to
    the end iterator per message area that exists, the main area first. *)
Theorem chatline_scroll_to_bottom_requests (s : client) :
  let s' := exec chatline_scroll_to_bottom s in
  let n := length (output_text s) in
  same_globals s s'
  /\ message_buffer s' = message_buffer s
  /\ (is_Some (message_buffer s) ->
      trace s'
      = (if (start_message_area s =? NULL)%N then []
         else [gtk_text_view_scroll_to_iter (start_message_area s) n])
        ++ (if (main_message_area s =? NULL)%N then []
            else [gtk_text_view_scroll_to_iter (main_message_area s) n])
        ++ trace s).
Proof.
  intros s' n. subst s' n.
  unfold exec, chatline_scroll_to_bottom, output_text, bind, gets,
    gtk_text_buffer_get_end_iter, when, modify, ret.
  destruct (message_buffer s) as [b|] eqn:Hb; simpl.
  - rewrite Hb.
    destruct (main_message_area s =? NULL)%N eqn:Hm;
      destruct (start_message_area s =? NULL)%N eqn:Hs; simpl;
      rewrite ?Hs; simpl; rewrite ?Hb; by repeat split.
  - rewrite Hb. split; [by repeat split|]. split; [done|].
    by intros [? ?].
Qed.

(** ** Logging, setting and clearing the output window *)

Lemma set_heap_same (s : client) : set_heap (heap s) s = s.
Proof. by destruct s. Qed.

Lemma set_text_buffer (b : text_buffer) (text : cstring) :
  buf_text (insert_text (delete_text b 0 (length (buf_text b))) 0 text)
  = text.
Proof.
  unfold insert_text, delete_text. simpl.
  by rewrite drop_all, app_nil_r.
Qed.

(** Emptying a buffer of [n] characters takes [n] off every offset. *)
Lemma collapse_mark_all (n : nat) (m : text_mark) :
  collapse_mark 0 n m
  = TextMark (mark_offset m - n) (mark_left_gravity m).
Proof.
  destruct m as [o g]. unfold collapse_mark. simpl.
  destruct (Nat.leb_spec o 0).
  - f_equal. lia.
  - destruct (Nat.ltb_spec o n); f_equal; lia.
Qed.

(** Inserting at the start moves every mark but a left-gravity mark at
    the start. *)
Lemma shift_mark_start (len o : nat) (g : bool) :
  shift_mark 0 len (TextMark o g)
  = TextMark (if (o =? 0)%nat && g then 0 else o + len) g.
Proof.
  destruct o, g; reflexivity.
Qed.

(** Setting the same text again moves no mark. *)
Lemma set_text_mark_stable (n len : nat) (m : text_mark) :
  shift_mark 0 len (collapse_mark 0 len
    (shift_mark 0 len (collapse_mark 0 n m)))
  = shift_mark 0 len (collapse_mark 0 n m).
Proof.
  rewrite (collapse_mark_all n m). destruct m as [o g]. simpl.
  rewrite shift_mark_start, collapse_mark_all. simpl.
  rewrite shift_mark_start. f_equal.
  destruct (Nat.eqb_spec (o - n) 0) as [E|E], g; simpl.
  - reflexivity.
  - rewrite E. simpl. replace (len - len)%nat with 0%nat by lia.
    reflexivity.
  - replace (o - n + len - len)%nat with (o - n)%nat by lia.
    destruct (Nat.eqb_spec (o - n) 0); [lia|]. reflexivity.
  - replace (o - n + len - len)%nat with (o - n)%nat by lia.
    destruct (Nat.eqb_spec (o - n) 0); [lia|]. reflexivity.
Qed.

Section output_window_facts.

Variable malloc : gmap N cstring -> N.
Variable gettext : cstring -> cstring.

Hypothesis malloc_fresh :
  forall h : gmap N cstring, malloc h ≠ NULL /\ h !! malloc h = None.

(** X9: with a buffer, [log_output_window] hands the whole text of the
    buffer to the writer and leaves the state exactly as it found it: the
    copy it obtained is released again. *)
Theorem log_output_window_reads (s : client) (b : text_buffer) :
  message_buffer s = Some b ->
  log_output_window malloc s = (Some (buf_text b), s).
Proof.
  intros Hb.
  unfold log_output_window, bind, gets, ret, free, modify,
    gtk_text_buffer_get_bounds, gtk_text_buffer_get_text, mystrdup.
  rewrite Hb. simpl. rewrite Hb. simpl.
  destruct (malloc_fresh (heap s)) as [Hp Hfree].
  rewrite Nat.sub_0_r, take_ge by done.
  rewrite lookup_insert_eq.
  destruct (N.eqb_spec (malloc (heap s)) NULL); [done|].
  f_equal. unfold set_heap. simpl.
  rewrite delete_insert_id by done. by destruct s.
Qed.

(** X10: with a buffer, [set_output_window_text] replaces whatever the
    buffer held by the given text, keeps the marks alive, records no call
    and writes no global; logging afterwards writes that text. *)
Theorem set_output_window_text_log (s : client) (b : text_buffer)
  (text : cstring) :
  message_buffer s = Some b ->
  let s' := exec (set_output_window_text text) s in
  output_text s' = text
  /\ dom (output_marks s') = dom (buf_marks b)
  /\ same_globals s s'
  /\ trace s' = trace s
  /\ fst (log_output_window malloc s') = Some text.
Proof.
  intros Hb s'.
  assert (message_buffer s'
          = Some (insert_text (delete_text b 0 (length (buf_text b))) 0 text))
    as Hs'.
  { subst s'. unfold exec, set_output_window_text, gtk_text_buffer_set_text.
    by rewrite Hb. }
  assert (same_globals s s' /\ trace s' = trace s) as [Hg Ht].
  { subst s'. unfold exec, set_output_window_text, gtk_text_buffer_set_text.
    rewrite Hb. by repeat split. }
  clearbody s'. unfold output_text, output_marks. rewrite Hs'.
  rewrite set_text_buffer.
  split; [done|]. split.
  { unfold insert_text, delete_text. simpl. by rewrite !dom_fmap_L. }
  split; [done|]. split; [done|].
  rewrite (log_output_window_reads s' _ Hs'). simpl.
  apply f_equal, set_text_buffer.
Qed.

(** X11: with a buffer, setting the same text twice is the same as
    setting it once, marks included; so is clearing twice. *)
Theorem set_output_window_text_idempotent (s : client) (b : text_buffer)
  (text : cstring) :
  message_buffer s = Some b ->
  exec (set_output_window_text text) (exec (set_output_window_text text) s)
  = exec (set_output_window_text text) s
  /\ exec (clear_output_window gettext) (exec (clear_output_window gettext) s)
     = exec (clear_output_window gettext) s.
Proof.
  intros Hb.
  assert (forall t,
    exec (set_output_window_text t) (exec (set_output_window_text t) s)
    = exec (set_output_window_text t) s) as Hidem.
  { intros t.
    unfold exec, set_output_window_text, gtk_text_buffer_set_text.
    rewrite Hb. simpl. unfold set_message_buffer. simpl.
    f_equal. f_equal.
    rewrite drop_all, !app_nil_r.
    unfold insert_text, delete_text. simpl.
    rewrite drop_all, !app_nil_r. f_equal.
    - cbn [drop]. by rewrite drop_all, app_nil_r.
    - rewrite <- !map_fmap_compose. apply map_fmap_ext.
      intros k m _. simpl. apply set_text_mark_stable. }
  split; [apply Hidem|]. unfold clear_output_window. apply Hidem.
Qed.

End output_window_facts.

Lemma set_output_window_text_log_witness :
  let s := exec (set_output_window_text (list_ascii_of_string "Ready"))
             marked_window in
  output_text s = list_ascii_of_string "Ready"
  /\ fst (log_output_window next_block s)
     = Some (list_ascii_of_string "Ready").
Proof.
  intros s.
  destruct (set_output_window_text_log next_block next_block_fresh
              marked_window
              (TextBuffer (list_ascii_of_string "Welcome")
                 (<[1%N := TextMark 7 false]>
                    (<[2%N := TextMark 3 true]> ∅)))
              (list_ascii_of_string "Ready"))
    as (Htext & _ & _ & _ & Hlog); [reflexivity|].
  split; [exact Htext|exact Hlog].
Defined.

Lemma log_output_window_reads_witness :
  log_output_window next_block marked_window
  = (Some (list_ascii_of_string "Welcome"), marked_window).
Proof.
  apply (log_output_window_reads next_block next_block_fresh marked_window
           (TextBuffer (list_ascii_of_string "Welcome")
              (<[1%N := TextMark 7 false]>
                 (<[2%N := TextMark 3 true]> ∅)))).
  reflexivity.
Defined.

Lemma set_output_window_text_idempotent_witness :
  let set := set_output_window_text (list_ascii_of_string "Ready") in
  exec set (exec set marked_window) = exec set marked_window.
Proof.
  intros set.
  apply (set_output_window_text_idempotent (fun text => text) marked_window
           (TextBuffer (list_ascii_of_string "Welcome")
              (<[1%N := TextMark 7 false]>
                 (<[2%N := TextMark 3 true]> ∅)))
           (list_ascii_of_string "Ready")).
  reflexivity.
Defined.

(** ** Several appends *)




(** * Further properties of the declarative files *)

(** ** Specenum blocks *)

(** X13: in every block of the two definition files no identifier and no
    name is given twice. *)
Theorem specenum_values_distinct :
  Forall (fun e => NoDup (Specenum.identifiers e) /\ NoDup (value_names e))
         Specenum.all_enums.
Proof.
  unfold Specenum.all_enums, Specenum.fc_types_def, Specenum.terrain_def.
  simpl. repeat (constructor; [split; compute_done|]). constructor.
Qed.

(** ** Build glue *)

Section automake_more_facts.

Import Automake.

(** X14: under every configuration the tex AI makefile defines nothing
    for the library that is not built, and the include paths are the same
    nine directories. *)
Theorem tex_ai_other_target_undefined (cfg : configuration) :
  let defs := definitions cfg tex_Makefile_am in
  let other :=
    if cfg "AI_MOD_STATIC_TEX" then "fc_ai_tex.la" else "libtexai.la" in
  words_of (target_variable other "SOURCES") defs = None
  /\ words_of (target_variable other "LDFLAGS") defs = None
  /\ words_of "AM_CPPFLAGS" defs
     = Some (List.map (fun dir => String.append "-I$(top_srcdir)" dir)
               ["/utility"; "/common"; "/common/aicore";
                "/common/networking"; "/server/"; "/server/advisors";
                "/ai/default"; "/dependencies/tinycthread";
                "/gen_headers/enums"]).
Proof.
  intros defs other. subst defs other.
  unfold definitions, tex_Makefile_am. simpl.
  destruct (cfg "AI_MOD_STATIC_TEX"); repeat split; vm_compute; reflexivity.
Qed.

End automake_more_facts.

Section tools_facts.

Import Automake AutomakeTools.

Implicit Types defs : list (string * list (list piece)).

Lemma value_of_last (variable : string) defs (rhs : list (list piece)) :
  value_of variable (defs ++ [(variable, rhs)]) = Some rhs.
Proof.
  unfold value_of. rewrite List.rev_app_distr. simpl.
  by rewrite String.eqb_refl.
Qed.

Lemma value_of_other (variable other : string) defs
  (rhs : list (list piece)) :
  other ≠ variable ->
  value_of variable (defs ++ [(other, rhs)]) = value_of variable defs.
Proof.
  intros H. unfold value_of. rewrite List.rev_app_distr. simpl.
  destruct (String.eqb_spec other variable); [done|]. done.
Qed.

Lemma expand_literal (fuel : nat) defs (s : string) :
  expand fuel defs [text s] = [s].
Proof.
  destruct fuel; reflexivity.
Qed.

Variable cfg : configuration.
Variable included :
  list (string * list (list piece)) -> list (string * list (list piece)).


(** X16: when the included fragment leaves SUBDIRS alone, the
    directories built are shared, ruleutil and fcmp, then ruledit when
    RULEDIT holds, then manual when FCMANUAL holds. *)
Theorem tools_subdirs :
  (forall defs, value_of "SUBDIRS" (included defs) = value_of "SUBDIRS" defs) ->
  words_of "SUBDIRS" (run_lines cfg included tools_Makefile_am)
  = Some (["shared"; "ruleutil"; "fcmp"]
          ++ (if cfg "RULEDIT" then ["ruledit"] else [])
          ++ (if cfg "FCMANUAL" then ["manual"] else [])).
Proof.
  intros Hinc.
  unfold run_lines, tools_Makefile_am, words_of.
  cbn [List.fold_left run_line].
  destruct (cfg "RULEDIT"), (cfg "FCMANUAL"), (cfg "FCRULEUP");
    cbn [List.fold_left run_line];
    repeat (rewrite ?value_of_last; cbn [default id app]);
    rewrite ?value_of_other by done;
    rewrite Hinc;
    match goal with
    | |- context [value_of "SUBDIRS" (?a :: ?l)] =>
        let v := eval vm_compute in (value_of "SUBDIRS" (a :: l)) in
        change (value_of "SUBDIRS" (a :: l)) with v
    end;
    cbn [option_map List.flat_map app];
    rewrite !expand_literal; reflexivity.
Qed.

End tools_facts.

Lemma tools_subdirs_witness :
  Automake.words_of "SUBDIRS"
    (AutomakeTools.run_lines
       (fun condition => String.eqb condition "FCMANUAL")
       (fun defs => defs ++ [("EXTRA_DIST", [])])
       AutomakeTools.tools_Makefile_am)
  = Some ["shared"; "ruleutil"; "fcmp"; "manual"].
Proof.
  apply (tools_subdirs (fun condition => String.eqb condition "FCMANUAL")
           (fun defs => defs ++ [("EXTRA_DIST", [])])).
  intros defs. by apply value_of_other.
Defined.

(** ** The Mongol nation *)

Section ruleset_more_facts.

Import Ruleset RulesetChecks.

(** X17: both tables of the nation have one cell per column in every
    row, no leader name and no city name is given twice, and there are
    thirty cities. *)
Theorem mongol_names_distinct :
  exists leaders titles cities,
    table_of "leaders" nation_mongol = Some leaders
    /\ table_of "ruler_titles" nation_mongol = Some titles
    /\ vector_of "cities" nation_mongol = Some cities
    /\ rectangular leaders
    /\ rectangular titles
    /\ NoDup (column_texts leaders "name")
    /\ NoDup (List.map entry_text cities)
    /\ length cities = 30%nat.
Proof.
  do 3 eexists. split; [reflexivity|]. split; [reflexivity|].
  split; [reflexivity|]. split.
  { unfold rectangular. simpl. repeat (constructor; [reflexivity|]).
    constructor. }
  split.
  { unfold rectangular. simpl. repeat (constructor; [reflexivity|]).
    constructor. }
  split; [compute_done|].
  split; [compute_done|].
  reflexivity.
Qed.

End ruleset_more_facts.
